(** * cldfbench_serzantjanicantipassives: the raw-table to CLDF transform

    A shallow embedding of [cldfbench_serzantjanicantipassives.py] and the
    properties of its row normaliser, language resolver, code vocabulary
    builder and construction/value assembler.

    Conventions of the embedding.
    - A Python [str] is the Rocq [string] of its UTF-8 encoding, so that the
      order of strings is the order of their code points.  [strip] and
      [splitlines] know the whitespace and the line boundaries of Unicode;
      [capitalize] and the regular expression [\w+] are modelled on the
      ASCII repertoire, and what is stated about title casing itself is
      stated of ASCII strings.
    - The command is modelled on a data table all of whose cells are
      strings and on a citation table whose lines have two cells; what the
      normaliser does with the other rows that [read_csv] can yield is
      [normalise_raw_table].  The reading of [sources.bib] and the set-up
      of the CLDF schema are left to the libraries that do them.
    - A Python [dict] (insertion ordered since 3.7) is an association list
      with pairwise distinct keys, in insertion order.
    - An exception is a value of [exn]; code that may raise lives in the
      result type [res], code that also prints to [sys.stderr] in [M]. *)

From Stdlib Require Import Ascii String.
From stdpp Require Import base strings list sorting pretty gmap.

Local Open Scope string_scope.
Local Open Scope list_scope.

(** ** Python strings *)

(** [str.isspace] on a character that UTF-8 writes with one byte: TAB, LF,
    VT, FF, CR, the four information separators FS, GS, RS, US, and the
    blank. *)
Definition isspace (c : ascii) : bool :=
  match c with
  | "009" | "010" | "011" | "012" | "013"
  | "028" | "029" | "030" | "031" | " " => true
  | _ => false
  end%char.

(** [str.isspace] on a character of two bytes: U+0085 (C2 85) and
    U+00A0 (C2 A0). *)
Definition isspace2 (c1 c2 : ascii) : bool :=
  match c1, c2 with
  | "194", "133" | "194", "160" => true
  | _, _ => false
  end%char.

(** [str.isspace] on a character of three bytes: U+1680 (E1 9A 80),
    U+2000 to U+200A (E2 80 80 to E2 80 8A), U+2028, U+2029 and U+202F
    (E2 80 A8, A9, AF), U+205F (E2 81 9F) and U+3000 (E3 80 80).  No
    character of four bytes is whitespace. *)
Definition isspace3 (c1 c2 c3 : ascii) : bool :=
  match c1, c2, c3 with
  | "225", "154", "128" => true
  | "226", "128", ("128" | "129" | "130" | "131" | "132" | "133" | "134"
                   | "135" | "136" | "137" | "138" | "168" | "169" | "175") => true
  | "226", "129", "159" => true
  | "227", "128", "128" => true
  | _, _, _ => false
  end%char.

(** The string without its first character, when that is whitespace. *)
Definition drop_space (s : string) : option string :=
  match s with
  | String c1 s1 =>
      if isspace c1 then Some s1
      else match s1 with
           | String c2 s2 =>
               if isspace2 c1 c2 then Some s2
               else match s2 with
                    | String c3 s3 => if isspace3 c1 c2 c3 then Some s3 else None
                    | "" => None
                    end
           | "" => None
           end
  | "" => None
  end.

(** [s.lstrip()] *)
Fixpoint lstrip (s : string) : string :=
  match s with
  | String c1 s1 =>
      if isspace c1 then lstrip s1
      else match s1 with
           | String c2 s2 =>
               if isspace2 c1 c2 then lstrip s2
               else match s2 with
                    | String c3 s3 => if isspace3 c1 c2 c3 then lstrip s3 else s
                    | "" => s
                    end
           | "" => s
           end
  | "" => ""
  end.

(** [s.rstrip()]: the string up to the point from where on there is only
    whitespace. *)
Fixpoint rstrip (s : string) : string :=
  match s with
  | "" => ""
  | String c s' => if decide (lstrip s = "") then "" else String c (rstrip s')
  end.

(** [s.strip()] *)
Definition strip (s : string) : string := rstrip (lstrip s).

(** Does [s] begin, respectively end, with a whitespace character? *)
Definition starts_space (s : string) : bool :=
  match drop_space s with Some _ => true | None => false end.

Fixpoint ends_space (s : string) : bool :=
  match s with
  | "" => false
  | String c s' => bool_decide (drop_space s = Some "") || ends_space s'
  end.

Definition padded (s : string) : bool := starts_space s || ends_space s.

(** Truth value of a string: the empty string is false. *)
Definition truthy (s : string) : bool := bool_decide (s ≠ "").

Definition string_of_chars (l : list ascii) : string :=
  fold_right String "" l.

(** The line boundaries of [str.splitlines] that UTF-8 writes with one
    byte: LF, VT, FF, CR, FS, GS, RS (and CR LF, which counts once). *)
Definition is_linebreak (c : ascii) : bool :=
  match c with
  | "010" | "011" | "012" | "013" | "028" | "029" | "030" => true
  | _ => false
  end%char.

(** The line boundary of two bytes, U+0085 (C2 85), and those of three,
    U+2028 and U+2029 (E2 80 A8, E2 80 A9). *)
Definition is_linebreak2 (c1 c2 : ascii) : bool :=
  match c1, c2 with
  | "194", "133" => true
  | _, _ => false
  end%char.

Definition is_linebreak3 (c1 c2 c3 : ascii) : bool :=
  match c1, c2, c3 with
  | "226", "128", ("168" | "169") => true
  | _, _, _ => false
  end%char.

Definition is_CR (c : ascii) : bool := bool_decide (c = "013"%char).
Definition is_LF (c : ascii) : bool := bool_decide (c = "010"%char).

(** [line] holds the bytes of the current line, last one first;
    [after_cr] says the previous character was a CR that ended a line. *)
Fixpoint splitlines_from (line : list ascii) (after_cr : bool) (s : string)
  : list string :=
  match s with
  | "" => match line with [] => [] | _ => [string_of_chars (rev line)] end
  | String c1 s1 =>
      if after_cr && is_LF c1 then splitlines_from line false s1
      else if is_linebreak c1 then
        string_of_chars (rev line) :: splitlines_from [] (is_CR c1) s1
      else
        match s1 with
        | String c2 s2 =>
            if is_linebreak2 c1 c2 then
              string_of_chars (rev line) :: splitlines_from [] false s2
            else
              match s2 with
              | String c3 s3 =>
                  if is_linebreak3 c1 c2 c3 then
                    string_of_chars (rev line) :: splitlines_from [] false s3
                  else splitlines_from (c1 :: line) false s1
              | "" => splitlines_from (c1 :: line) false s1
              end
        | "" => splitlines_from (c1 :: line) false s1
        end
  end.

(** [s.splitlines()] *)
Definition splitlines (s : string) : list string := splitlines_from [] false s.

(** The class [\w] of the regular expression, on ASCII. *)
Definition is_word (c : ascii) : bool :=
  let n := nat_of_ascii c in
  (((48 <=? n) && (n <=? 57)) || ((65 <=? n) && (n <=? 90))
   || ((97 <=? n) && (n <=? 122)) || (n =? 95))%nat.

Definition upper (c : ascii) : ascii :=
  let n := nat_of_ascii c in
  if ((97 <=? n) && (n <=? 122))%nat then ascii_of_nat (n - 32) else c.

Definition lower (c : ascii) : ascii :=
  let n := nat_of_ascii c in
  if ((65 <=? n) && (n <=? 90))%nat then ascii_of_nat (n + 32) else c.

Fixpoint map_string (f : ascii → ascii) (s : string) : string :=
  match s with
  | "" => ""
  | String c s' => String (f c) (map_string f s')
  end.

(** [s.capitalize()] *)
Definition capitalize (s : string) : string :=
  match s with
  | "" => ""
  | String c s' => String (upper c) (map_string lower s')
  end.

(** One replacement of [re.sub]: a match that is being collected ([run], last
    character first) is replaced by [f] of it; no match, nothing. *)
Definition flush_match (f : string → string) (run : list ascii) : string :=
  match run with
  | [] => ""
  | _ => f (string_of_chars (rev run))
  end.

(** [re.sub(r'\w+', lambda m: f(m.group(0)), s)]: every maximal run of word
    characters is replaced by [f] of it, the rest is kept. *)
Fixpoint re_sub_words_from (f : string → string) (run : list ascii) (s : string)
  : string :=
  match s with
  | "" => flush_match f run
  | String c s' =>
      if is_word c then re_sub_words_from f (c :: run) s'
      else flush_match f run +:+ String c (re_sub_words_from f [] s')
  end.

Definition re_sub_words (f : string → string) (s : string) : string :=
  re_sub_words_from f [] s.

(** [[
def title_case(s):
    return re.sub(r'\w+', lambda m: m.group(0).capitalize(), s)
]] *)
Definition title_case (s : string) : string := re_sub_words capitalize s.

(** ['{}'.format(n)] for a natural number: its decimal digits. *)
Definition str_of_nat (n : nat) : string := pretty n.
Global Arguments str_of_nat : simpl never.

(** ** Python dictionaries *)

Abbreviation dict K V := (list (K * V)).

Section Dict.
Context {K V : Type} `{!EqDecision K}.

(** [d.get(k)] *)
Fixpoint dict_get (k : K) (d : dict K V) : option V :=
  match d with
  | [] => None
  | (k', v) :: d' => if decide (k' = k) then Some v else dict_get k d'
  end.

(** [d[k] = v]: an existing key keeps its position, a new one goes last. *)
Fixpoint dict_set (k : K) (v : V) (d : dict K V) : dict K V :=
  match d with
  | [] => [(k, v)]
  | (k', v') :: d' =>
      if decide (k' = k) then (k, v) :: d' else (k', v') :: dict_set k v d'
  end.

(** [k in d] *)
Definition dict_mem (k : K) (d : dict K V) : bool :=
  match dict_get k d with Some _ => true | None => false end.

(** Adding [items] to [d] one after the other. *)
Definition dict_update (d : dict K V) (items : list (K * V)) : dict K V :=
  fold_left (λ acc kv, dict_set kv.1 kv.2 acc) items d.

(** [dict(items)], and the dictionary built by a comprehension that
    produces [items] in this order. *)
Definition dict_of_items (items : list (K * V)) : dict K V :=
  dict_update [] items.

Definition dict_keys (d : dict K V) : list K := d.*1.
Definition dict_values (d : dict K V) : list V := d.*2.
End Dict.

(** [d.get(k, default)] *)
Definition dict_get_default {K V} `{!EqDecision K}
    (k : K) (default : V) (d : dict K V) : V :=
  match dict_get k d with Some v => v | None => default end.

(** [sorted(set(l))] for strings: duplicates are dropped, the rest is ordered
    by code point. *)
Definition sorted_set (l : list string) : list string :=
  merge_sort String.le (remove_dups l).

(** ** Module constants and helpers *)

Definition PARAMETER_COLUMNS : list (string * string) :=
  [ ("AP marker", "ap-marker");
    ("Type of AP Marker", "marker-type");
    ("FunctionAP", "functions");
    ("Polysemy", "polysemy");
    ("Productivity of AP", "productivity");
    ("Obligatoriness of P", "p-obligatoriness");
    ("Definiteness P", "p-definiteness") ].

Definition NA_SYNONYMS : gset string :=
  {[ "NI"; "_inapplicable"; "NA"; "n/a" ]}.

Abbreviation Row := (dict string string).

(** [[
def normalise_row(row):
    return {
        k.strip(): v.strip()
        for k, v in row.items()
        if k.strip() and v.strip()}
]] *)
Definition normalise_row (row : Row) : Row :=
  dict_of_items
    ((λ kv, (strip kv.1, strip kv.2))
       <$> filter (λ kv, truthy (strip kv.1) && truthy (strip kv.2) = true) row).

(** [[
def normalise_table(table):
    return list(filter(None, map(normalise_row, table)))
]]
    [filter(None, ...)] keeps the rows that are true, that is, not empty. *)
Definition normalise_table (table : list Row) : list Row :=
  filter (λ row, row ≠ []) (normalise_row <$> table).

(** [[
def unify_na(value):
    return 'n/a' if value in NA_SYNONYMS else value
]] *)
Definition unify_na (value : string) : string :=
  if decide (value ∈ NA_SYNONYMS) then "n/a" else value.

(** ** Rows as [read_csv] hands them over

    [read_csv(..., dicts=True)] gives one dictionary per line of the file.
    A line with fewer cells than the header has [None] in the columns it
    lacks; the cells of a line beyond the header are collected, as a list,
    under the key [None]. *)

Inductive cell : Type :=
| CStr (s : string)
| CNone
| CList (l : list string).

Abbreviation RawRow := (list (option string * cell)).

(** [AttributeError: 'T' object has no attribute 'a'] *)
Inductive attribute_error : Type :=
| AttributeError (type_name attr : string).

(** A value, or the [AttributeError] raised in its place. *)
Inductive attempt (A : Type) : Type :=
| Returns (a : A)
| Raises (e : attribute_error).
Arguments Returns {A}.
Arguments Raises {A}.

#[global] Instance attempt_ret : MRet attempt := λ A a, Returns a.
#[global] Instance attempt_bind : MBind attempt := λ A B f m,
  match m with
  | Returns a => f a
  | Raises e => Raises e
  end.

(** [k.strip()] and [v.strip()]: only a string has the method. *)
Definition key_strip (k : option string) : attempt string :=
  match k with
  | Some s => Returns (strip s)
  | None => Raises (AttributeError "NoneType" "strip")
  end.

Definition cell_strip (v : cell) : attempt string :=
  match v with
  | CStr s => Returns (strip s)
  | CNone => Raises (AttributeError "NoneType" "strip")
  | CList _ => Raises (AttributeError "list" "strip")
  end.

(** One item of the comprehension of [normalise_row]: the condition
    [k.strip() and v.strip()], which does not evaluate [v.strip()] when
    [k.strip()] is empty, then the key and the value of the new item. *)
Definition normalise_item (kv : option string * cell)
  : attempt (option (string * string)) :=
  k ← key_strip kv.1;
  if truthy k then
    v ← cell_strip kv.2;
    if truthy v then
      k' ← key_strip kv.1;
      v' ← cell_strip kv.2;
      mret (Some (k', v'))
    else mret None
  else mret None.

(** [normalise_row] and [normalise_table] as they run on the rows of
    [read_csv]; [normalise_row] and [normalise_table] above are what they
    compute when every key and every cell is a string. *)
Definition normalise_raw_row (row : RawRow) : attempt Row :=
  items ← mapM normalise_item row;
  mret (dict_of_items (omap id items)).

Definition normalise_raw_table (table : list RawRow) : attempt (list Row) :=
  rows ← mapM normalise_raw_row table;
  mret (filter (λ row, row ≠ []) rows).

(** A row of strings, as a row of [read_csv]. *)
Definition of_row (row : Row) : RawRow :=
  (λ kv, (Some kv.1, CStr kv.2)) <$> row.

(** The items of a row of [read_csv] whose key and cell are strings. *)
Definition to_row (raw : RawRow) : Row :=
  omap (λ kv : option string * cell,
          match kv with
          | (Some k, CStr v) => Some (k, v)
          | _ => None
          end) raw.

(** An item that the comprehension gets past: its key is a string, and its
    cell is one too unless the key is blank. *)
Definition strippable (kv : option string * cell) : Prop :=
  match kv with
  | (Some _, CStr _) => True
  | (Some k, _) => strip k = ""
  | (None, _) => False
  end.

#[global] Instance strippable_dec kv : Decision (strippable kv).
Proof. destruct kv as [[k|] [v| |l]]; cbn; apply _. Defined.

(** ** Output records

    The dictionaries the module builds with a fixed set of keys are records;
    the language rows, which are [ChainMap]s, stay dictionaries. *)

Module Code.
Record t : Type := mk {
  ID : string;
  Parameter_ID : string;
  Name : string;
}.
End Code.

Module Construction.
Record t : Type := mk {
  ID : string;
  Name : string;
  Language_ID : string;
  Source : list string;
}.
End Construction.

Module CValue.
Record t : Type := mk {
  ID : string;
  Construction_ID : string;
  Parameter_ID : string;
  Value : string;
  Code_ID : option string;
}.
End CValue.

(** ** The Glottolog catalogue, as the module reads it *)

Module Macroarea.
Record t : Type := mk { name : string }.
End Macroarea.

Module Languoid.
Record t (float : Type) : Type := mk {
  id : string;
  name : string;
  iso : option string;
  macroareas : list Macroarea.t;
  latitude : option float;
  longitude : option float;
}.
Arguments mk {float}.
Arguments id {float}.
Arguments name {float}.
Arguments iso {float}.
Arguments macroareas {float}.
Arguments latitude {float}.
Arguments longitude {float}.
End Languoid.

(** Names bound in the module's global namespace: its imports, constants,
    functions and class. *)
Definition module_globals : list string :=
  [ "ChainMap"; "defaultdict"; "OrderedDict"; "pathlib"; "re";
    "parse_string"; "cldfcatalog"; "BaseDataset"; "CLDFSpec"; "Glottolog";
    "PARAMETER_COLUMNS"; "NA_SYNONYMS"; "normalise_row"; "normalise_table";
    "title_case"; "make_language_table"; "unify_na"; "Dataset" ].

Section Transform.
(** Python's [float], with equality and [str()], is a parameter:
    coordinates are only passed from the catalogue to the output. *)
Context {float : Type} `{!EqDecision float} (float_str : float → string).

(** The values that occur in a language row. *)
Inductive pyval : Type :=
| VStr (s : string)
| VFloat (x : float)
| VNone.

#[global] Instance pyval_eq_dec : EqDecision pyval.
Proof. solve_decision. Defined.

(** [str(v)], which is what ['{}'.format(v)] inserts. *)
Definition py_str (v : pyval) : string :=
  match v with
  | VStr s => s
  | VFloat x => float_str x
  | VNone => "None"
  end.

Definition str_or_none (o : option string) : pyval :=
  match o with Some s => VStr s | None => VNone end.

Definition float_or_none (o : option float) : pyval :=
  match o with Some x => VFloat x | None => VNone end.

(** *** Exceptions and output to [sys.stderr] *)

Inductive exn : Type :=
| KeyError (key : pyval)
| NameError (name : string).

Inductive res (A : Type) : Type :=
| Ok (a : A)
| Err (e : exn).
Arguments Ok {A}.
Arguments Err {A}.

#[global] Instance res_ret : MRet res := λ A a, Ok a.
#[global] Instance res_bind : MBind res := λ A B f m,
  match m with
  | Ok a => f a
  | Err e => Err e
  end.

(** A computation that may raise and may print lines to [sys.stderr]. *)
Definition M (A : Type) : Type := list string → res A * list string.

#[global] Instance M_ret : MRet M := λ A a err, (Ok a, err).
#[global] Instance M_bind : MBind M := λ A B f m err,
  match m err with
  | (Ok a, err') => f a err'
  | (Err e, err') => (Err e, err')
  end.

Definition lift {A} (r : res A) : M A := λ err, (r, err).

(** [print(..., file=sys.stderr)]: the arguments, joined by blanks. *)
Definition print_stderr (args : list string) : M unit :=
  λ err, (Ok tt, err ++ [String.concat " " args]).

(** Reading a global name that is not a builtin. *)
Definition global (name : string) : M unit :=
  if decide (name ∈ module_globals) then mret tt
  else lift (Err (NameError name)).

(** [d[k]] *)
Definition getitem {V} (k : string) (d : dict string V) : res V :=
  match dict_get k d with
  | Some v => Ok v
  | None => Err (KeyError (VStr k))
  end.

(** *** Language rows *)

(** [ChainMap(m1, m2, ...)]: a lookup takes the first map that has the key. *)
Local Abbreviation ChainMap := (list (dict string pyval)).

Fixpoint chain_get (k : string) (maps : ChainMap) : option pyval :=
  match maps with
  | [] => None
  | m :: maps' =>
      match dict_get k m with
      | Some v => Some v
      | None => chain_get k maps'
      end
  end.

Definition chain_getitem (k : string) (maps : ChainMap) : res pyval :=
  match chain_get k maps with
  | Some v => Ok v
  | None => Err (KeyError (VStr k))
  end.

(** [glottolog.languoids(ids=...)]: the languoids of the catalogue whose
    id is one of [ids], in catalogue order. *)
Definition languoids (catalog : list (Languoid.t float)) (ids : list string)
  : list (Languoid.t float) :=
  filter (λ l, Languoid.id l ∈ ids) catalog.

Definition id_layer (glottocode : string) (node : Languoid.t float)
  : dict string pyval :=
  [ ("ID", VStr glottocode);
    ("Glottocode", VStr glottocode);
    ("ISO639P3code", str_or_none (Languoid.iso node)) ].

(** [{k: v for k, v in info.items() if k and v}] *)
Definition local_layer (info : dict string string) : dict string pyval :=
  dict_of_items
    ((λ kv, (kv.1, VStr kv.2))
       <$> filter (λ kv, truthy kv.1 && truthy kv.2 = true) info).

Definition catalog_layer (node : Languoid.t float) : dict string pyval :=
  [ ("Name", VStr (Languoid.name node));
    ("Macroarea",
      VStr (match Languoid.macroareas node with
            | m :: _ => Macroarea.name m
            | [] => ""
            end));
    ("Latitude", float_or_none (Languoid.latitude node));
    ("Longitude", float_or_none (Languoid.longitude node)) ].

(** [[
def make_language_table(lang_info):
  glottocodes = sorted({l['ID'] for l in lang_info.values()})
  ...
  nodemap = {l.id: l for l in glottolog.languoids(ids=glottocodes)}
  languages = [
      ChainMap(
          {'ID': glottocode, 'Glottocode': glottocode,
           'ISO639P3code': nodemap[glottocode].iso},
          {k: v for k, v in lang_info[glottocode].items() if k and v},
          {'Name': nodemap[glottocode].name, ...})
      for glottocode in glottocodes]
  return languages
]]
    Every [nodemap[glottocode]] of one row reads the same entry; the first
    of them raises when there is none. *)
Definition make_language_table
    (catalog : list (Languoid.t float))
    (lang_info : dict string (dict string string)) : res (list ChainMap) :=
  ids ← mapM (getitem "ID") (dict_values lang_info);
  let glottocodes := sorted_set ids in
  let nodemap :=
    dict_of_items ((λ l, (Languoid.id l, l)) <$> languoids catalog glottocodes) in
  mapM (λ glottocode,
          node ← getitem glottocode nodemap;
          info ← getitem glottocode lang_info;
          mret [id_layer glottocode node; local_layer info; catalog_layer node])
       glottocodes.

(** *** The command *)

Record Input : Type := mkInput {
  raw_data : list Row;                       (* raw/Data_to_be_published.csv *)
  parameters_csv : list Row;                 (* etc/parameters.csv *)
  citations_to_bibtex : list (string * string);  (* etc/citations-to-bibtex.csv *)
  glottolog : list (Languoid.t float);       (* the Glottolog clone *)
}.

Record Output : Type := mkOutput {
  LanguageTable : list ChainMap;
  ParameterTable : list Row;
  CodeTable : list Code.t;
  ValueTable : list unit;
  constructions_csv : list Construction.t;
  cvalues_csv : list CValue.t;
}.

(** [[
source_map = {
  citation.strip(): key.strip()
  for key, citation in self.etc_dir.read_csv('citations-to-bibtex.csv')}
]] *)
Definition make_source_map (rows : list (string * string)) : dict string string :=
  dict_of_items ((λ kc, (strip kc.2, strip kc.1)) <$> rows).

(** [[
lang_info = {
  row['Glottolog.Name']:
  {
      'ID': row['Glottolog.Name'],
      'Name': title_case(row.get('Language', '')),
      'SubBranch': title_case(row.get('Sub-branch', '')),
      'Family': title_case(row.get('Family', '')),
  }
  for row in data}
]] *)
Definition lang_info_value (ID : string) (row : Row) : dict string string :=
  [ ("ID", ID);
    ("Name", title_case (dict_get_default "Language" "" row));
    ("SubBranch", title_case (dict_get_default "Sub-branch" "" row));
    ("Family", title_case (dict_get_default "Family" "" row)) ].

Definition lang_info_item (row : Row) : res (string * dict string string) :=
  key ← getitem "Glottolog.Name" row;
  ID ← getitem "Glottolog.Name" row;
  mret (key, lang_info_value ID row).

Definition make_lang_info (data : list Row)
  : res (dict string (dict string string)) :=
  items ← mapM lang_info_item data;
  mret (dict_of_items items).

(** The values [unify_na(row[column])] of the rows with a true
    [row.get(column)]. *)
Definition observed (column : string) (data : list Row) : list string :=
  omap (λ row : Row,
          match dict_get column row with
          | Some v => if truthy v then Some (unify_na v) else None
          | None => None
          end) data.

(** [[
code_dict = OrderedDict()
for column, param_id in PARAMETER_COLUMNS:
  if param_id == 'ap-marker':
      continue
  code_dict[param_id] = sorted({
      unify_na(row[column]) for row in data if row.get(column)})
]] *)
Definition make_code_dict (data : list Row) : dict string (list string) :=
  fold_left
    (λ code_dict cp,
       if decide (cp.2 = "ap-marker") then code_dict
       else dict_set cp.2 (sorted_set (observed cp.1 data)) code_dict)
    PARAMETER_COLUMNS [].

(** [enumerate(l)] *)
Definition enumerate {A} (l : list A) : list (nat * A) := imap (λ i x, (i, x)) l.

Definition make_code (param_id : string) (index : nat) (name : string) : Code.t :=
  {| Code.ID := param_id +:+ "-c" +:+ str_of_nat (index + 1);
     Code.Parameter_ID := param_id;
     Code.Name := name |}.

(** [[
codes = OrderedDict(
  ((param_id, name),
   {'ID': '{}-c{}'.format(param_id, index + 1),
    'Parameter_ID': param_id,
    'Name': name})
  for param_id, code_names in code_dict.items()
  for index, name in enumerate(code_names))
]] *)
Definition code_items (code_dict : dict string (list string))
  : list ((string * string) * Code.t) :=
  pc ← code_dict;
  (λ ix : nat * string, ((pc.1, ix.2), make_code pc.1 ix.1 ix.2))
    <$> enumerate pc.2.

Definition make_codes (code_dict : dict string (list string))
  : dict (string * string) Code.t :=
  dict_of_items (code_items code_dict).

(** [[
def known_citation(cite):
  if cite in source_map:
      return True
  else:
      print('row {}: unknown citation:'.format(index + 2), cite,
            file=sys.stderr)
      return False
]]
    The arguments of [print] are evaluated first; [sys.stderr] reads the
    global name [sys]. *)
Definition known_citation (source_map : dict string string) (index : nat)
    (cite : string) : M bool :=
  if dict_mem cite source_map then mret true
  else
    let msg := "row " +:+ str_of_nat (index + 2) +:+ ": unknown citation:" in
    _ ← global "sys";
    _ ← print_stderr [msg; cite];
    mret false.

(** [[
citations = [
  source_map[citation.strip()]
  for citation in row.get('Source', '').splitlines()
  if known_citation(citation)]
]] *)
Fixpoint resolve_citations (source_map : dict string string) (index : nat)
    (lines : list string) : M (list string) :=
  match lines with
  | [] => mret []
  | citation :: lines' =>
      known ← known_citation source_map index citation;
      if (known : bool) then
        key ← lift (getitem (strip citation) source_map);
        keys ← resolve_citations source_map index lines';
        mret (key :: keys)
      else resolve_citations source_map index lines'
  end.

(** The records that [cvalues.extend(...)] adds for one row. *)
Definition row_values (codes : dict (string * string) Code.t)
    (constr_id : string) (row : Row) : list CValue.t :=
  omap (λ cp : string * string,
          match dict_get cp.1 row with
          | Some v =>
              if truthy v then
                Some {| CValue.ID := constr_id +:+ "-" +:+ cp.2;
                        CValue.Construction_ID := constr_id;
                        CValue.Parameter_ID := cp.2;
                        CValue.Value := unify_na v;
                        CValue.Code_ID :=
                          Code.ID <$> dict_get (cp.2, unify_na v) codes |}
              else None
          | None => None
          end) PARAMETER_COLUMNS.

(** The state of the loop over the rows. *)
Record Loop : Type := mkLoop {
  constructions : list Construction.t;
  cvalues : list CValue.t;
  ords : dict string nat;                    (* defaultdict(int) *)
}.

(** ['{}-ap{}'.format(lang_id, constr_ord)] *)
Definition format_constr_id (lang_id : string) (constr_ord : nat) : string :=
  lang_id +:+ "-ap" +:+ str_of_nat constr_ord.

(** ['{} Antipassive Construction {}'.format(lang_name, constr_ord)] *)
Definition format_constr_name (lang_name : pyval) (constr_ord : nat) : string :=
  py_str lang_name +:+ " Antipassive Construction " +:+ str_of_nat constr_ord.

(** One turn of [for index, row in enumerate(data)]. *)
Definition loop_body
    (languages : dict pyval ChainMap) (codes : dict (string * string) Code.t)
    (source_map : dict string string)
    (st : Loop) (index : nat) (row : Row) : M Loop :=
  lang_id ← lift (getitem "Glottolog.Name" row);
  key ← lift (getitem "Glottolog.Name" row);
  lang ← lift (match dict_get (VStr key) languages with
               | Some l => Ok l
               | None => Err (KeyError (VStr key))
               end);
  lang_name ← lift (chain_getitem "Name" lang);
  let ords' := dict_set lang_id (dict_get_default lang_id 0 (ords st) + 1) (ords st) in
  let constr_ord := dict_get_default lang_id 0 ords' in
  let constr_id := format_constr_id lang_id constr_ord in
  citations ←
    resolve_citations source_map index
      (splitlines (dict_get_default "Source" "" row));
  let construction :=
    {| Construction.ID := constr_id;
       Construction.Name := format_constr_name lang_name constr_ord;
       Construction.Language_ID := lang_id;
       Construction.Source := citations |} in
  mret {| constructions := constructions st ++ [construction];
          cvalues := cvalues st ++ row_values codes constr_id row;
          ords := ords' |}.

Fixpoint loop
    (languages : dict pyval ChainMap) (codes : dict (string * string) Code.t)
    (source_map : dict string string)
    (st : Loop) (rows : list (nat * Row)) : M Loop :=
  match rows with
  | [] => mret st
  | (index, row) :: rows' =>
      st' ← loop_body languages codes source_map st index row;
      loop languages codes source_map st' rows'
  end.

(** [Dataset.cmd_makecldf], from the tables read to the tables handed to
    the writer. *)
Definition cmd_makecldf (inp : Input) : M Output :=
  let data := normalise_table (raw_data inp) in
  let parameters := parameters_csv inp in
  let source_map := make_source_map (citations_to_bibtex inp) in
  lang_info ← lift (make_lang_info data);
  table ← lift (make_language_table (glottolog inp) lang_info);
  ids ← lift (mapM (chain_getitem "ID") table);
  let languages := dict_of_items (zip ids table) in
  let code_dict := make_code_dict data in
  let codes := make_codes code_dict in
  st ← loop languages codes source_map
         {| constructions := []; cvalues := []; ords := [] |}
         (enumerate data);
  mret {| LanguageTable := dict_values languages;
          ParameterTable := parameters;
          CodeTable := dict_values codes;
          ValueTable := [];
          constructions_csv := constructions st;
          cvalues_csv := cvalues st |}.
End Transform.

Abbreviation ChainMap := (list (dict string pyval)).

Arguments Ok {float A}.
Arguments Err {float A}.
Arguments VStr {float}.
Arguments VNone {float}.

(** ** Sample tables

    Small inputs on which the statements below are evaluated.  Coordinates
    are integers here, printed in decimal. *)

Definition LF : string := String "010" "".

Definition sample_catalog : list (Languoid.t Z) :=
  [ Languoid.mk "lang1" "Catalog One" (Some "abc")
      [Macroarea.mk "Eurasia"; Macroarea.mk "Africa"] (Some 10%Z) (Some 20%Z);
    Languoid.mk "zzzz1234" "Other" None [] None None;
    Languoid.mk "lang2" "Catalog Two" None [] None None ].

Definition sample_citations : list (string * string) :=
  [ ("k1 ", " X"); ("k2", "Z") ].

(** Two languages, the rows of the first interleaved with the second; one
    row that normalisation drops. *)
Definition sample_rows : list Row :=
  [ [ ("Glottolog.Name", "lang1"); ("Language", "first name");
      ("Family", " fam-a "); ("AP marker", "-ka"); ("Polysemy", "NI");
      ("Source", "X" +:+ LF +:+ "Z") ];
    [ (" ", "x"); ("y", " ") ];
    [ ("Glottolog.Name", "lang2"); ("Polysemy", "yes"); ("FunctionAP", "yes") ];
    [ ("Glottolog.Name", " lang1"); ("Language", "second");
      ("Sub-branch", "sub"); ("Polysemy", "no"); ("Source", "Z") ] ].

Definition sample_input : Input :=
  mkInput sample_rows [[("ID", "polysemy")]] sample_citations sample_catalog.

(** A row whose second citation is not in the table. *)
Definition unknown_citation_input : Input :=
  mkInput [ [ ("Glottolog.Name", "lang1"); ("Source", "X" +:+ LF +:+ "Y") ] ]
          [] sample_citations sample_catalog.

(** A row whose second citation is in the table, but indented. *)
Definition padded_citation_input : Input :=
  mkInput [ [ ("Glottolog.Name", "lang1"); ("Source", "X" +:+ LF +:+ " Z") ] ]
          [] sample_citations sample_catalog.

(** A row of a language that the catalogue does not have. *)
Definition unknown_language_input : Input :=
  mkInput [ [ ("Glottolog.Name", "lang3") ] ] [] sample_citations sample_catalog.

(** Three rows with the values b, a, c in one coded column. *)
Definition abc_rows : list Row :=
  [ [ ("Polysemy", "b") ]; [ ("Polysemy", "a"); ("FunctionAP", "a") ];
    [ ("Polysemy", "c") ] ].

(** The header a, b and the lines "1" (short) and "1,2,3" (long). *)
Definition short_line : RawRow := [ (Some "a", CStr "1"); (Some "b", CNone) ].
Definition long_line : RawRow :=
  [ (Some "a", CStr "1"); (Some "b", CStr "2"); (None, CList ["3"]) ].

(** Rows that the normaliser takes: a no-break space (U+00A0) and an
    em space (U+2003) as padding, a blank column name over a short line, a
    blank cell, and a row of blanks. *)
Definition NBSP : string := String "194" (String "160" "").
Definition EMSP : string := String "226" (String "128" (String "131" "")).
Definition padded_table : list RawRow :=
  [ [ (Some (NBSP +:+ "a "), CStr (" x" +:+ EMSP)); (Some " ", CNone);
      (Some "b", CStr NBSP) ];
    [ (Some "a", CStr " ") ];
    [ (Some " a", CStr "y"); (Some "a ", CStr "z") ] ].

(** What the command returns on [sample_input]. *)
Definition sample_output : Output :=
  Eval vm_compute in
    match cmd_makecldf pretty sample_input [] with
    | (Ok out, _) => out
    | (Err _, _) => mkOutput [] [] [] [] [] []
    end.

(** ** Vocabulary of the statements *)

(** The rows of one language, in row order. *)
Definition rows_of_language (lang_id : string) (rows : list Row) : list Row :=
  filter (λ row, dict_get "Glottolog.Name" row = Some lang_id) rows.

(** Title casing read one character at a time: [inside] says that the
    previous character was a word character. *)
Fixpoint title_chars (inside : bool) (s : string) : string :=
  match s with
  | "" => ""
  | String c s' =>
      String (if is_word c then if inside then lower c else upper c else c)
             (title_chars (is_word c) s')
  end.

(** The lines of the [Source] cell of a row. *)
Definition source_lines (row : Row) : list string :=
  splitlines (dict_get_default "Source" "" row).

(** Every row has a language cell. *)
Definition languages_named (data : list Row) : Prop :=
  Forall (λ row, is_Some (dict_get "Glottolog.Name" row)) data.

(** Every language cell is the id of a languoid of the catalogue. *)
Definition languages_catalogued {float} (catalog : list (Languoid.t float))
    (data : list Row) : Prop :=
  Forall (λ g, g ∈ Languoid.id <$> catalog) (omap (dict_get "Glottolog.Name") data).

(** Every line of every [Source] cell is, as it stands, a citation of the
    table. *)
Definition citations_known (source_map : dict string string) (data : list Row)
  : Prop :=
  Forall (λ row, Forall (λ line, dict_mem line source_map = true) (source_lines row))
         data.

(** A computation that leaves what has been printed as it is. *)
Definition quiet {float A} (m : @M float A) : Prop := ∀ err, (m err).2 = err.

(** The row of the language [g] in the table that [make_language_table]
    returns: the three layers, built from the last catalogue entry of [g]
    and the local fields of [g]. *)
Definition language_row_of {float} (catalog : list (Languoid.t float))
    (lang_info : dict string (dict string string))
    (g : string) (lang : list (dict string (@pyval float))) : Prop :=
  ∃ node info,
    last (filter (λ l, Languoid.id l = g) catalog) = Some node ∧
    dict_get g lang_info = Some info ∧
    lang = [id_layer g node; local_layer info; catalog_layer node].

(** A decimal digit. *)
Definition is_digit (c : ascii) : bool :=
  let n := nat_of_ascii c in ((48 <=? n) && (n <=? 57))%nat.

(** A row without a language cell. *)
Definition missing_language_input : Input :=
  mkInput [ [ ("Language", "x"); ("Source", "X") ] ] [] sample_citations sample_catalog.

(** The strings of ASCII characters. *)
Fixpoint is_ascii (s : string) : bool :=
  match s with
  | "" => true
  | String c s' => (nat_of_ascii c <? 128)%nat && is_ascii s'
  end.

(** * Properties *)

(** ** Strings *)

Lemma lstrip_eq s :
  lstrip s = match drop_space s with Some rest => lstrip rest | None => s end.
Proof.
  destruct s as [|c1 [|c2 [|c3 s3]]]; cbn [lstrip drop_space]; try done.
  - by destruct (isspace c1).
  - destruct (isspace c1); [done|]. by destruct (isspace2 c1 c2).
  - destruct (isspace c1); [done|]. destruct (isspace2 c1 c2); [done|].
    by destruct (isspace3 c1 c2 c3).
Qed.

(** A whitespace character at the head of [s]: its bytes [w] and the rest. *)
Lemma drop_space_Some s rest :
  drop_space s = Some rest →
  ∃ w, s = w +:+ rest ∧ w ≠ "" ∧ ∀ t, drop_space (w +:+ t) = Some t.
Proof.
  destruct s as [|c1 [|c2 [|c3 s3]]]; cbn [drop_space]; try done.
  - destruct (isspace c1) eqn:H1; [|done]. intros [= <-].
    exists (String c1 ""). split_and!; [done..|]. intros t.
    change (String c1 "" +:+ t) with (String c1 t). cbn [drop_space]. by rewrite H1.
  - destruct (isspace c1) eqn:H1.
    { intros [= <-]. exists (String c1 ""). split_and!; [done..|]. intros t.
      change (String c1 "" +:+ t) with (String c1 t). cbn [drop_space]. by rewrite H1. }
    destruct (isspace2 c1 c2) eqn:H2; [|done]. intros [= <-].
    exists (String c1 (String c2 "")). split_and!; [done..|]. intros t.
    change (String c1 (String c2 "") +:+ t) with (String c1 (String c2 t)).
    cbn [drop_space]. by rewrite H1, H2.
  - destruct (isspace c1) eqn:H1.
    { intros [= <-]. exists (String c1 ""). split_and!; [done..|]. intros t.
      change (String c1 "" +:+ t) with (String c1 t). cbn [drop_space]. by rewrite H1. }
    destruct (isspace2 c1 c2) eqn:H2.
    { intros [= <-]. exists (String c1 (String c2 "")). split_and!; [done..|].
      intros t.
      change (String c1 (String c2 "") +:+ t) with (String c1 (String c2 t)).
      cbn [drop_space]. by rewrite H1, H2. }
    destruct (isspace3 c1 c2 c3) eqn:H3; [|done]. intros [= <-].
    exists (String c1 (String c2 (String c3 ""))). split_and!; [done..|]. intros t.
    change (String c1 (String c2 (String c3 "")) +:+ t)
      with (String c1 (String c2 (String c3 t))).
    cbn [drop_space]. by rewrite H1, H2, H3.
Qed.

Lemma str_app_nil_r (s : string) : s +:+ "" = s.
Proof.
  induction s as [|c s IH]; [done|].
  change (String c (s +:+ "") = String c s). by rewrite IH.
Qed.

Lemma str_app_assoc (s t u : string) : (s +:+ t) +:+ u = s +:+ (t +:+ u).
Proof.
  induction s as [|c s IH]; [done|].
  change (String c ((s +:+ t) +:+ u) = String c (s +:+ (t +:+ u))). by rewrite IH.
Qed.

Lemma str_app_length (s t : string) :
  String.length (s +:+ t) = String.length s + String.length t.
Proof.
  induction s as [|c s IH]; [done|].
  change (S (String.length (s +:+ t)) = S (String.length s + String.length t)).
  by rewrite IH.
Qed.

Lemma drop_space_length s rest :
  drop_space s = Some rest → String.length rest < String.length s.
Proof.
  intros (w & -> & Hw & _)%drop_space_Some. rewrite str_app_length.
  destruct w; [done|]. cbn [String.length]. lia.
Qed.

(** Induction along [lstrip]. *)
Lemma lstrip_ind (P : string → Prop) :
  (∀ s, (∀ rest, drop_space s = Some rest → P rest) → P s) → ∀ s, P s.
Proof.
  intros HP s. remember (String.length s) as n eqn:Hn. revert s Hn.
  induction (lt_wf n) as [n _ IH]. intros s ->.
  apply HP. intros rest Hrest. apply (IH (String.length rest)); [|done].
  by apply drop_space_length.
Qed.

Lemma starts_space_lstrip s : starts_space (lstrip s) = false.
Proof.
  induction s as [s IH] using lstrip_ind. rewrite lstrip_eq.
  destruct (drop_space s) as [rest|] eqn:Hs; [by apply IH|].
  unfold starts_space. by rewrite Hs.
Qed.

Lemma lstrip_id s : starts_space s = false → lstrip s = s.
Proof.
  unfold starts_space. rewrite lstrip_eq. by destruct (drop_space s).
Qed.

(** What [rstrip] cuts off is whitespace. *)
Lemma rstrip_prefix s : ∃ q, s = rstrip s +:+ q ∧ lstrip q = "".
Proof.
  induction s as [|c s (q & Hq & Hl)]; [by exists ""|].
  cbn [rstrip]. destruct (decide (lstrip (String c s) = "")) as [Hs|Hs].
  - by exists (String c s).
  - exists q. split; [|done].
    change (String c s = String c (rstrip s +:+ q)). by rewrite <-Hq.
Qed.

Lemma drop_space_app s rest t :
  drop_space s = Some rest → drop_space (s +:+ t) = Some (rest +:+ t).
Proof.
  intros (w & -> & _ & Hw)%drop_space_Some. by rewrite str_app_assoc, Hw.
Qed.

Lemma starts_space_rstrip s : starts_space s = false → starts_space (rstrip s) = false.
Proof.
  unfold starts_space. intros Hs.
  destruct (drop_space (rstrip s)) as [rest|] eqn:Hr; [|done].
  destruct (rstrip_prefix s) as (q & Hq & _).
  apply (drop_space_app _ _ q) in Hr. rewrite <-Hq in Hr. by rewrite Hr in Hs.
Qed.

Lemma ends_space_suffix w s : ends_space s = true → ends_space (w +:+ s) = true.
Proof.
  intros Hs. induction w as [|c w IH]; [done|].
  change (ends_space (String c (w +:+ s)) = true). cbn [ends_space].
  by rewrite IH, orb_true_r.
Qed.

(** A string of whitespace ends in whitespace. *)
Lemma lstrip_nil_ends_space s : lstrip s = "" → s ≠ "" → ends_space s = true.
Proof.
  induction s as [s IH] using lstrip_ind. rewrite lstrip_eq.
  destruct (drop_space s) as [rest|] eqn:Hs; [|done]. intros Hrest Hne.
  destruct rest as [|c rest].
  - destruct s as [|c s]; [done|]. cbn [ends_space]. by rewrite bool_decide_true.
  - apply drop_space_Some in Hs as (w & -> & _). apply ends_space_suffix.
    by apply IH.
Qed.

Lemma rstrip_id s : ends_space s = false → rstrip s = s.
Proof.
  induction s as [|c s IH]; [done|]. intros Hs. cbn [rstrip].
  destruct (decide (lstrip (String c s) = "")) as [Hl|Hl].
  - by rewrite (lstrip_nil_ends_space (String c s)) in Hs.
  - cbn [ends_space] in Hs. apply orb_false_iff in Hs as [_ Hs]. by rewrite IH.
Qed.

Lemma ends_space_rstrip s : ends_space (rstrip s) = false.
Proof.
  induction s as [|c s IH]; [done|]. cbn [rstrip].
  destruct (decide (lstrip (String c s) = "")) as [Hs|Hs]; [done|].
  cbn [ends_space]. rewrite IH, orb_false_r. apply bool_decide_eq_false.
  intros Hw. apply Hs. destruct (rstrip_prefix s) as (q & Hq & Hl).
  rewrite lstrip_eq. rewrite Hq at 1.
  change (String c (rstrip s +:+ q)) with (String c (rstrip s) +:+ q).
  by rewrite (drop_space_app _ _ q Hw).
Qed.

Lemma padded_strip s : padded (strip s) = false.
Proof.
  unfold padded, strip.
  by rewrite starts_space_rstrip, ends_space_rstrip by apply starts_space_lstrip.
Qed.

Lemma strip_id s : padded s = false → strip s = s.
Proof.
  unfold padded, strip. intros [H1 H2]%orb_false_iff.
  by rewrite lstrip_id, rstrip_id.
Qed.

Lemma strip_padded s : strip s = s ↔ padded s = false.
Proof.
  split; [|apply strip_id]. intros <-. apply padded_strip.
Qed.

Lemma strip_idemp s : strip (strip s) = strip s.
Proof. apply strip_id, padded_strip. Qed.

Lemma truthy_true s : truthy s = true ↔ s ≠ "".
Proof. unfold truthy. by rewrite bool_decide_eq_true. Qed.

(** ** Dictionaries *)

Section DictFacts.
Context {K V : Type} `{!EqDecision K}.
Implicit Types (d : dict K V) (items : list (K * V)) (k : K) (v : V).

Lemma dict_get_set_eq k v d : dict_get k (dict_set k v d) = Some v.
Proof.
  induction d as [|[k' v'] d IH]; simpl.
  - by rewrite decide_True.
  - destruct (decide (k' = k)); simpl; [by rewrite decide_True|].
    by rewrite decide_False.
Qed.

Lemma dict_get_set_ne k k' v d : k ≠ k' → dict_get k' (dict_set k v d) = dict_get k' d.
Proof.
  intros Hne. induction d as [|[k1 v1] d IH]; simpl.
  - by rewrite decide_False.
  - destruct (decide (k1 = k)) as [->|]; simpl.
    + by rewrite !decide_False.
    + by rewrite IH.
Qed.

Lemma dict_get_Some k v d : dict_get k d = Some v → (k, v) ∈ d.
Proof.
  induction d as [|[k' v'] d IH]; simpl; [done|].
  destruct (decide (k' = k)) as [->|].
  - intros [= ->]. left.
  - intros ?. right. auto.
Qed.

Lemma dict_get_None k d : dict_get k d = None ↔ k ∉ dict_keys d.
Proof.
  unfold dict_keys. induction d as [|[k' v'] d IH]; simpl.
  - split; [intros _; apply not_elem_of_nil|done].
  - rewrite not_elem_of_cons. destruct (decide (k' = k)) as [->|]; [naive_solver|].
    rewrite IH. naive_solver.
Qed.

Lemma dict_get_NoDup k v d : NoDup (dict_keys d) → (k, v) ∈ d → dict_get k d = Some v.
Proof.
  unfold dict_keys. induction d as [|[k' v'] d IH]; simpl.
  - intros _ []%elem_of_nil.
  - intros [Hk Hd]%NoDup_cons [[= -> ->]|Hin]%elem_of_cons.
    + by rewrite decide_True.
    + rewrite decide_False; [auto|].
      intros ->. apply Hk. apply list_elem_of_fmap. by exists (k, v).
Qed.

Lemma elem_of_dict_set k v d kv : kv ∈ dict_set k v d → kv = (k, v) ∨ kv ∈ d.
Proof.
  induction d as [|[k' v'] d IH]; simpl.
  - intros ?%list_elem_of_singleton. by left.
  - destruct (decide (k' = k)).
    + intros [->|?]%elem_of_cons; [by left|]. right. by right.
    + intros [->|?]%elem_of_cons; [right; left|].
      destruct IH as [->|?]; [done|by left|]. right. by right.
Qed.

Lemma dict_keys_set k v d :
  dict_keys (dict_set k v d) =
    if decide (k ∈ dict_keys d) then dict_keys d else dict_keys d ++ [k].
Proof.
  unfold dict_keys. induction d as [|[k' v'] d IH]; csimpl.
  - done.
  - destruct (decide (k' = k)) as [->|Hne]; csimpl.
    + clear IH. case_decide as H; [done|]. exfalso. apply H. left.
    + rewrite IH. clear IH. repeat case_decide; try done.
      * exfalso. set_solver.
      * exfalso. set_solver.
Qed.

Lemma dict_set_NoDup k v d : NoDup (dict_keys d) → NoDup (dict_keys (dict_set k v d)).
Proof.
  intros Hd. rewrite dict_keys_set. case_decide; [done|].
  apply NoDup_app. split_and!; [done| |apply NoDup_singleton].
  intros x Hx ->%list_elem_of_singleton. done.
Qed.

Lemma dict_set_not_nil k v d : dict_set k v d ≠ [].
Proof. destruct d as [|[k' v'] d]; simpl; [done|]. by case_decide. Qed.

Lemma dict_update_snoc d items k v :
  dict_update d (items ++ [(k, v)]) = dict_set k v (dict_update d items).
Proof. unfold dict_update. by rewrite fold_left_app. Qed.

Lemma dict_update_NoDup d items :
  NoDup (dict_keys d) → NoDup (dict_keys (dict_update d items)).
Proof.
  revert d. induction items as [|[k v] items IH]; intros d Hd; simpl; [done|].
  apply IH. by apply dict_set_NoDup.
Qed.

Lemma elem_of_dict_update d items kv :
  kv ∈ dict_update d items → kv ∈ d ∨ kv ∈ items.
Proof.
  revert d. induction items as [|[k v] items IH]; intros d; simpl; [by left|].
  intros [[->|?]%elem_of_dict_set|?]%IH.
  - right. left.
  - by left.
  - right. by right.
Qed.

Lemma dict_update_not_nil d items : d ≠ [] → dict_update d items ≠ [].
Proof.
  revert d. induction items as [|[k v] items IH]; intros d Hd; simpl; [done|].
  apply IH, dict_set_not_nil.
Qed.

Lemma dict_of_items_NoDup items : NoDup (dict_keys (dict_of_items items)).
Proof. apply dict_update_NoDup. apply NoDup_nil_2. Qed.

Lemma elem_of_dict_of_items items kv : kv ∈ dict_of_items items → kv ∈ items.
Proof. intros [[]%elem_of_nil|?]%elem_of_dict_update. done. Qed.

Lemma dict_of_items_nil items : dict_of_items items = [] ↔ items = [].
Proof.
  split; [|by intros ->].
  destruct items as [|[k v] items]; [done|].
  unfold dict_of_items. simpl. intros H.
  by apply dict_update_not_nil in H.
Qed.

(** The value of a key in [dict(items)] is that of its last item. *)
Lemma dict_get_update k d items :
  dict_get k (dict_update d items) =
    match last (filter (λ kv, kv.1 = k) items) with
    | Some kv => Some kv.2
    | None => dict_get k d
    end.
Proof.
  induction items as [|[k' v'] items IH] using rev_ind; [done|].
  rewrite dict_update_snoc, filter_app, filter_cons, filter_nil. simpl.
  destruct (decide (k' = k)) as [->|Hne].
  - by rewrite last_snoc, dict_get_set_eq.
  - rewrite app_nil_r, dict_get_set_ne by done. apply IH.
Qed.

Lemma dict_get_of_items k items :
  dict_get k (dict_of_items items) = snd <$> last (filter (λ kv, kv.1 = k) items).
Proof.
  unfold dict_of_items. rewrite dict_get_update.
  by destruct (last _).
Qed.

Lemma dict_keys_update d items k :
  k ∈ dict_keys (dict_update d items) ↔ k ∈ dict_keys d ∨ k ∈ items.*1.
Proof.
  revert d. induction items as [|[k' v'] items IH]; intros d; simpl.
  - rewrite elem_of_nil. naive_solver.
  - rewrite IH, dict_keys_set, elem_of_cons.
    case_decide; [naive_solver|].
    rewrite elem_of_app, list_elem_of_singleton. naive_solver.
Qed.
End DictFacts.

(** ** The row normaliser *)

Lemma elem_of_normalise_row (row : Row) k v :
  (k, v) ∈ normalise_row row →
  ∃ k0 v0, (k0, v0) ∈ row ∧ k = strip k0 ∧ v = strip v0 ∧ k ≠ "" ∧ v ≠ "".
Proof.
  intros Hin%elem_of_dict_of_items.
  apply list_elem_of_fmap in Hin as ([k0 v0] & [= -> ->] & Hin).
  apply list_elem_of_filter in Hin as [Hf Hin]. simpl in Hf.
  apply andb_true_iff in Hf as [?%truthy_true ?%truthy_true].
  by exists k0, v0.
Qed.

Lemma normalise_table_app t1 t2 :
  normalise_table (t1 ++ t2) = normalise_table t1 ++ normalise_table t2.
Proof. unfold normalise_table. by rewrite fmap_app, filter_app. Qed.

Lemma elem_of_normalise_table table row :
  row ∈ normalise_table table ↔ row ≠ [] ∧ ∃ raw, raw ∈ table ∧ row = normalise_row raw.
Proof.
  unfold normalise_table. rewrite list_elem_of_filter, list_elem_of_fmap. naive_solver.
Qed.

(** The normaliser on tables whose keys and cells are all strings.  Every
    key and value of an output row is the stripped form of an entry of its
    input row, has no leading or trailing whitespace and is not empty; no
    output row is empty; an input entry whose stripped key and value are not
    empty leaves its key in the output; and the output rows are the
    non-empty normalised input rows in input order (the normaliser
    distributes over concatenation, and a single row yields itself normalised
    or nothing). *)
Lemma normalise_table_spec (table : list Row) :
  (∀ row, row ∈ normalise_table table →
     row ≠ [] ∧ NoDup (dict_keys row) ∧
     ∃ raw, raw ∈ table ∧ row = normalise_row raw ∧
       ∀ k v, (k, v) ∈ row →
         k ≠ "" ∧ v ≠ "" ∧ padded k = false ∧ padded v = false ∧
         ∃ k0 v0, (k0, v0) ∈ raw ∧ k = strip k0 ∧ v = strip v0)
  ∧ (∀ raw k0 v0, raw ∈ table → (k0, v0) ∈ raw →
       strip k0 ≠ "" → strip v0 ≠ "" →
       normalise_row raw ∈ normalise_table table ∧
       strip k0 ∈ dict_keys (normalise_row raw))
  ∧ (∀ raw, normalise_table [raw] =
       if decide (normalise_row raw = []) then [] else [normalise_row raw])
  ∧ (∀ t1 t2, table = t1 ++ t2 →
       normalise_table table = normalise_table t1 ++ normalise_table t2).
Proof.
  split_and!.
  - intros row (Hne & raw & Hraw & ->)%elem_of_normalise_table.
    split_and!; [done|apply dict_of_items_NoDup|].
    exists raw. split_and!; [done..|].
    intros k v (k0 & v0 & Hin & -> & -> & ? & ?)%elem_of_normalise_row.
    split_and!; [done|done|apply padded_strip|apply padded_strip|by exists k0, v0].
  - intros raw k0 v0 Hraw Hin Hk Hv.
    assert (strip k0 ∈ dict_keys (normalise_row raw)) as Hkey.
    { unfold normalise_row, dict_of_items. apply dict_keys_update. right.
      apply list_elem_of_fmap. exists (strip k0, strip v0). split; [done|].
      apply list_elem_of_fmap. exists (k0, v0). split; [done|].
      apply list_elem_of_filter. split; [|done]. simpl.
      apply andb_true_iff. by rewrite !truthy_true. }
    split; [|done]. apply elem_of_normalise_table. split; [|by exists raw].
    intros Hnil. rewrite Hnil in Hkey. by apply elem_of_nil in Hkey.
  - intros raw. unfold normalise_table. simpl. rewrite filter_cons, filter_nil.
    repeat case_decide; done.
  - intros t1 t2 ->. apply normalise_table_app.
Qed.

(** ** The row normaliser on the rows of [read_csv] *)

Lemma attempt_bind_Returns {A B} (m : attempt A) (f : A → attempt B) b :
  m ≫= f = Returns b ↔ ∃ a, m = Returns a ∧ f a = Returns b.
Proof. destruct m as [a|e]; cbn; naive_solver. Qed.

Lemma attempt_bind_Raises {A B} (m : attempt A) (f : A → attempt B) e :
  m ≫= f = Raises e ↔ m = Raises e ∨ ∃ a, m = Returns a ∧ f a = Raises e.
Proof. destruct m as [a|e']; cbn; naive_solver. Qed.

Lemma mapM_attempt_Returns {A B} (f : A → attempt B) l k :
  mapM f l = Returns k ↔ Forall2 (λ x y, f x = Returns y) l k.
Proof.
  revert k. induction l as [|x l IH]; intros k; cbn [mapM].
  - split; [by intros [= <-]; constructor|by intros ->%Forall2_nil_inv_l].
  - rewrite attempt_bind_Returns. split.
    + intros (y & Hy & (k' & Hk' & [= <-])%attempt_bind_Returns).
      constructor; [done|by apply IH].
    + intros (y & k' & Hy & Hk' & ->)%Forall2_cons_inv_l.
      exists y. split; [done|]. apply attempt_bind_Returns. exists k'.
      split; [by apply IH|done].
Qed.

Lemma mapM_attempt_Raises {A B} (f : A → attempt B) l e :
  mapM f l = Raises e → ∃ x, x ∈ l ∧ f x = Raises e.
Proof.
  induction l as [|x l IH]; cbn [mapM]; [done|].
  intros [Hx|(y & _ & [Hl|(k & _ & [=])]%attempt_bind_Raises)]%attempt_bind_Raises.
  - exists x. split; [left|done].
  - destruct (IH Hl) as (x' & ? & ?). exists x'. split; [by right|done].
Qed.

Lemma mapM_attempt_total {A B} (f : A → attempt B) l :
  Forall (λ x, ∃ y, f x = Returns y) l → ∃ k, mapM f l = Returns k.
Proof.
  intros H. assert (∃ k, Forall2 (λ x y, f x = Returns y) l k) as [k Hk].
  { induction H as [|x l [y Hy] _ [k IH]]; [by exists []|].
    exists (y :: k). by constructor. }
  exists k. by apply mapM_attempt_Returns.
Qed.

(** What [normalise_item] keeps of an item it gets past. *)
Lemma normalise_item_Returns kv o :
  normalise_item kv = Returns o ↔
  strippable kv ∧
  o = match kv with
      | (Some k, CStr v) =>
          if truthy (strip k) && truthy (strip v)
          then Some (strip k, strip v) else None
      | _ => None
      end.
Proof.
  assert (∀ (x y : option (string * string)) (P : Prop),
            P → (mret x = Returns y ↔ P ∧ y = x)) as Hret.
  { intros x y P HP. split; [by intros [= <-]|by intros [_ ->]]. }
  destruct kv as [[k|] [v| |l]]; unfold normalise_item; cbn;
    try (split; [done|by intros [[] _]]).
  - destruct (truthy (strip k)); cbn; [|by apply Hret].
    destruct (truthy (strip v)); cbn; by apply Hret.
  - destruct (truthy (strip k)) eqn:Hk; cbn.
    + apply truthy_true in Hk. split; [done|by intros [? _]].
    + apply not_true_iff_false in Hk. rewrite truthy_true in Hk.
      apply dec_stable in Hk. by apply Hret.
  - destruct (truthy (strip k)) eqn:Hk; cbn.
    + apply truthy_true in Hk. split; [done|by intros [? _]].
    + apply not_true_iff_false in Hk. rewrite truthy_true in Hk.
      apply dec_stable in Hk. by apply Hret.
Qed.

Lemma normalise_item_Raises kv e :
  normalise_item kv = Raises e →
  ¬ strippable kv ∧
  (e = AttributeError "NoneType" "strip" ∨ e = AttributeError "list" "strip").
Proof.
  intros He. split.
  - intros Hs. destruct (normalise_item kv) as [o|e'] eqn:Hkv; [done|].
    assert (∃ o, normalise_item kv = Returns o) as [o Ho]; [|congruence].
    eexists. apply normalise_item_Returns. by split.
  - destruct kv as [[k|] [v| |l]]; unfold normalise_item in He; cbn in He;
      repeat (destruct (truthy _); cbn in He); naive_solver.
Qed.

Lemma kept_items (raw : RawRow) items :
  Forall2 (λ kv o,
             o = match kv with
                 | (Some k, CStr v) =>
                     if truthy (strip k) && truthy (strip v)
                     then Some (strip k, strip v) else None
                 | _ => None
                 end) raw items →
  omap id items =
    (λ kv, (strip kv.1, strip kv.2))
      <$> filter (λ kv, truthy (strip kv.1) && truthy (strip kv.2) = true) (to_row raw).
Proof.
  induction 1 as [|kv o raw items -> _ IH]; [done|].
  unfold to_row. cbn [omap list_omap]. fold (to_row raw).
  destruct kv as [[k|] [v| |l]]; cbn [id]; try done.
  rewrite filter_cons. cbn [fst snd].
  destruct (truthy (strip k) && truthy (strip v)) eqn:Hkv.
  - rewrite decide_True by done. rewrite fmap_cons. by f_equal.
  - rewrite decide_False by congruence. done.
Qed.

Lemma normalise_raw_row_Returns raw r :
  normalise_raw_row raw = Returns r ↔
  Forall strippable raw ∧ r = normalise_row (to_row raw).
Proof.
  unfold normalise_raw_row. rewrite attempt_bind_Returns. split.
  - intros (items & Hitems%mapM_attempt_Returns & [= <-]).
    split.
    + apply Forall_forall. intros kv [i Hi]%list_elem_of_lookup.
      destruct (Forall2_lookup_l _ _ _ _ _ Hitems Hi) as (o & _ & Ho).
      by apply normalise_item_Returns in Ho as [? _].
    + unfold normalise_row. f_equal. apply kept_items.
      eapply Forall2_impl; [exact Hitems|].
      by intros kv o [_ ?]%normalise_item_Returns.
  - intros [Hraw ->].
    destruct (mapM_attempt_total normalise_item raw) as [items Hitems].
    { eapply Forall_impl; [exact Hraw|]. intros kv Hkv. eexists.
      apply normalise_item_Returns. by split. }
    exists items. split; [done|]. unfold normalise_row. cbn. do 2 f_equal.
    apply mapM_attempt_Returns in Hitems. apply kept_items.
    eapply Forall2_impl; [exact Hitems|].
    by intros kv o [_ ?]%normalise_item_Returns.
Qed.

Lemma normalise_raw_row_Raises raw e :
  normalise_raw_row raw = Raises e →
  ¬ Forall strippable raw ∧
  (e = AttributeError "NoneType" "strip" ∨ e = AttributeError "list" "strip").
Proof.
  unfold normalise_raw_row.
  intros [Hitems|(items & _ & [=])]%attempt_bind_Raises.
  apply mapM_attempt_Raises in Hitems as (kv & Hin & [Hkv He]%normalise_item_Raises).
  split; [|done]. intros Hall. rewrite Forall_forall in Hall. by apply Hkv, Hall.
Qed.

Lemma normalise_raw_table_Returns table rows :
  normalise_raw_table table = Returns rows ↔
  Forall (Forall strippable) table ∧ rows = normalise_table (to_row <$> table).
Proof.
  unfold normalise_raw_table. rewrite attempt_bind_Returns. split.
  - intros (rs & Hrs%mapM_attempt_Returns & [= <-]).
    assert (Forall (Forall strippable) table ∧ rs = normalise_row <$> (to_row <$> table))
      as [? ->]; [|done].
    induction Hrs as [|raw r table rs [? ->]%normalise_raw_row_Returns _ [? ->]];
      [done|].
    split; [by constructor|done].
  - intros [Htable ->]. exists (normalise_row <$> (to_row <$> table)).
    split; [|done]. apply mapM_attempt_Returns.
    induction Htable as [|raw table Hraw _ IH]; [constructor|].
    rewrite !fmap_cons. constructor; [|done].
    by apply normalise_raw_row_Returns.
Qed.

Lemma to_row_of_row (row : Row) : to_row (of_row row) = row.
Proof.
  unfold to_row, of_row. induction row as [|[k v] row IH]; [done|].
  rewrite fmap_cons. cbn [omap list_omap fst snd]. by rewrite IH.
Qed.

Lemma strippable_of_row (row : Row) : Forall strippable (of_row row).
Proof.
  unfold of_row. apply Forall_fmap, Forall_forall. by intros [k v] _.
Qed.

(** C8.  On the rows of [read_csv] the normaliser has a failure mode: it
    returns exactly when every key is a string and every cell under a key
    that is not blank is a string, and raises [AttributeError] for the
    missing method [strip] otherwise.  When it returns, the rows returned
    are the non-empty normalised rows in input order; every key and value
    of a normalised row is the stripped form of a string item of its input
    row, has no leading or trailing whitespace and is not empty, and an
    item whose stripped key and cell are not empty leaves its key in the
    row.  On a table of strings it returns what [normalise_table] gives. *)
Theorem normalise_raw_table_spec (table : list RawRow) :
  ((∃ rows, normalise_raw_table table = Returns rows) ↔
     Forall (Forall strippable) table)
  ∧ (∀ e, normalise_raw_table table = Raises e →
       e = AttributeError "NoneType" "strip" ∨ e = AttributeError "list" "strip")
  ∧ (∀ rows, normalise_raw_table table = Returns rows →
       ∃ rs, Forall2 (λ raw r, normalise_raw_row raw = Returns r) table rs ∧
             rows = filter (λ r, r ≠ []) rs)
  ∧ (∀ raw r, normalise_raw_row raw = Returns r →
       NoDup (dict_keys r) ∧
       (∀ k v, (k, v) ∈ r →
          k ≠ "" ∧ v ≠ "" ∧ padded k = false ∧ padded v = false ∧
          ∃ k0 v0, (Some k0, CStr v0) ∈ raw ∧ k = strip k0 ∧ v = strip v0) ∧
       (∀ k0 v0, (Some k0, CStr v0) ∈ raw →
          strip k0 ≠ "" → strip v0 ≠ "" → strip k0 ∈ dict_keys r))
  ∧ (∀ t : list Row, normalise_raw_table (of_row <$> t) = Returns (normalise_table t)).
Proof.
  split_and!.
  - split.
    + by intros [rows [? _]%normalise_raw_table_Returns].
    + intros Htable. eexists. apply normalise_raw_table_Returns. by split.
  - unfold normalise_raw_table.
    intros e [Hrs|(rs & _ & [=])]%attempt_bind_Raises.
    apply mapM_attempt_Raises in Hrs as (raw & _ & [_ He]%normalise_raw_row_Raises).
    done.
  - unfold normalise_raw_table.
    intros rows (rs & Hrs%mapM_attempt_Returns & [= <-])%attempt_bind_Returns.
    by exists rs.
  - intros raw r [Hraw ->]%normalise_raw_row_Returns.
    assert (∀ k0 v0, (k0, v0) ∈ to_row raw ↔ (Some k0, CStr v0) ∈ raw) as Hto.
    { intros k0 v0. unfold to_row. rewrite list_elem_of_omap. split.
      - intros ([[k|] [v| |l]] & Hin & [= <- <-]). done.
      - intros Hin. by exists (Some k0, CStr v0). }
    split_and!.
    + apply dict_of_items_NoDup.
    + intros k v (k0 & v0 & Hin & -> & -> & ? & ?)%elem_of_normalise_row.
      split_and!; [done|done|apply padded_strip|apply padded_strip|].
      exists k0, v0. by rewrite <-Hto.
    + intros k0 v0 Hin%Hto Hk Hv.
      unfold normalise_row, dict_of_items. apply dict_keys_update. right.
      apply list_elem_of_fmap. exists (strip k0, strip v0). split; [done|].
      apply list_elem_of_fmap. exists (k0, v0). split; [done|].
      apply list_elem_of_filter. split; [|done]. cbn [fst snd].
      apply andb_true_iff. by rewrite !truthy_true.
  - intros t. apply normalise_raw_table_Returns. split.
    + apply Forall_fmap, Forall_forall. intros row _. apply strippable_of_row.
    + f_equal. induction t as [|row t IH]; [done|].
      rewrite !fmap_cons, to_row_of_row. by f_equal.
Qed.

(** ** NA unification *)

(** C9.  [unify_na] maps each of NI, _inapplicable, NA and n/a to n/a, and
    returns every other string unchanged. *)
Theorem unify_na_spec (value : string) :
  (value ∈ ["NI"; "_inapplicable"; "NA"; "n/a"] → unify_na value = "n/a")
  ∧ (value ∉ ["NI"; "_inapplicable"; "NA"; "n/a"] → unify_na value = value).
Proof.
  unfold unify_na, NA_SYNONYMS.
  split; intros H; case_decide as Hin; try done; exfalso.
  - apply Hin. set_unfold. naive_solver.
  - apply H. set_unfold. naive_solver.
Qed.

(** ** Computations that may raise *)

Section Monads.
Context {float : Type}.
Local Abbreviation res := (@res float).
Local Abbreviation M := (@M float).

Lemma res_bind_Ok {A B} (m : res A) (f : A → res B) b :
  m ≫= f = Ok b ↔ ∃ a, m = Ok a ∧ f a = Ok b.
Proof. destruct m as [a|e]; simpl; [|naive_solver]. split; [by exists a|]. by intros (? & [= <-] & ?). Qed.

Lemma res_bind_Err {A B} (m : res A) (f : A → res B) e :
  m ≫= f = Err e ↔ m = Err e ∨ ∃ a, m = Ok a ∧ f a = Err e.
Proof. destruct m as [a|e']; simpl; naive_solver. Qed.

Lemma M_bind_Ok {A B} (m : M A) (f : A → M B) err b err' :
  (m ≫= f) err = (Ok b, err') ↔
  ∃ a err1, m err = (Ok a, err1) ∧ f a err1 = (Ok b, err').
Proof.
  unfold mbind, M_bind. destruct (m err) as [[a|e] err1]; [|naive_solver].
  split; [by exists a, err1|]. by intros (? & ? & [= <- <-] & ?).
Qed.

Lemma lift_Ok {A} (r : res A) err a err' :
  lift r err = (Ok a, err') ↔ r = Ok a ∧ err' = err.
Proof. unfold lift. naive_solver. Qed.

Lemma M_ret_Ok {A} (a b : A) err err' :
  mret (M := M) a err = (Ok b, err') ↔ a = b ∧ err' = err.
Proof. unfold mret, M_ret. naive_solver. Qed.

Lemma mapM_res_Ok {A B} (f : A → res B) l k :
  mapM f l = Ok k ↔ Forall2 (λ x y, f x = Ok y) l k.
Proof.
  revert k. induction l as [|x l IH]; intros k; simpl.
  - split; [intros [= <-]; constructor|by intros ->%Forall2_nil_inv_l].
  - rewrite res_bind_Ok. split.
    + intros (y & Hy & (k' & Hk' & [= <-])%res_bind_Ok).
      constructor; [done|]. by apply IH.
    + intros (y & k' & Hy & Hk' & ->)%Forall2_cons_inv_l.
      exists y. split; [done|]. apply res_bind_Ok. exists k'. split; [by apply IH|done].
Qed.

Lemma mapM_res_Err {A B} (f : A → res B) l e :
  mapM f l = Err e → ∃ x, x ∈ l ∧ f x = Err e.
Proof.
  induction l as [|x l IH]; simpl; [done|].
  intros [Hx|(y & Hy & [Hl|(k & _ & [=])]%res_bind_Err)]%res_bind_Err.
  - exists x. split; [left|done].
  - destruct (IH Hl) as (x' & ? & ?). exists x'. split; [by right|done].
Qed.

Lemma mapM_res_fails {A B} (f : A → res B) l x e :
  x ∈ l → f x = Err e → ∃ e', mapM f l = Err e'.
Proof.
  intros Hx Hfx. destruct (mapM f l) as [k|e'] eqn:Hm; [|by exists e'].
  apply mapM_res_Ok in Hm.
  apply list_elem_of_lookup in Hx as [i Hi].
  destruct (Forall2_lookup_l _ _ _ _ _ Hm Hi) as (y & _ & Hy). congruence.
Qed.

Lemma getitem_Ok {V} k (d : dict string V) v :
  getitem (float:=float) k d = Ok v ↔ dict_get k d = Some v.
Proof. unfold getitem. destruct (dict_get k d); naive_solver. Qed.

Lemma getitem_Err {V} k (d : dict string V) e :
  getitem (float:=float) k d = Err e ↔ dict_get k d = None ∧ e = KeyError (VStr k).
Proof. unfold getitem. destruct (dict_get k d); naive_solver. Qed.

Lemma chain_getitem_Ok k (maps : ChainMap) v :
  chain_getitem (float:=float) k maps = Ok v ↔ chain_get k maps = Some v.
Proof. unfold chain_getitem. destruct (chain_get k maps); naive_solver. Qed.
End Monads.

(** ** The loop over the rows *)

Ltac inv_run :=
  repeat match goal with
    | H : (_ ≫= _) _ = (Ok _, _) |- _ =>
        apply M_bind_Ok in H as (? & ? & ? & H)
    | H : lift _ _ = (Ok _, _) |- _ => apply lift_Ok in H as [H ->]
    | H : mret _ _ = (Ok _, _) |- _ => apply M_ret_Ok in H as [<- ->]
    | H : getitem _ _ = Ok _ |- _ => apply getitem_Ok in H
    | H : chain_getitem _ _ = Ok _ |- _ => apply chain_getitem_Ok in H
    end.

Section Loop.
Context {float : Type} `{!EqDecision float} (float_str : float → string).
Implicit Types (languages : dict (@pyval float) (list (dict string (@pyval float))))
  (codes : dict (string * string) Code.t) (source_map : dict string string)
  (st : Loop) (row : Row) (err : list string).

Lemma known_citation_Ok source_map index cite err (b : bool) err' :
  known_citation (float:=float) source_map index cite err = (Ok b, err') ↔
  dict_mem cite source_map = true ∧ b = true ∧ err' = err.
Proof.
  unfold known_citation. destruct (dict_mem cite source_map).
  - rewrite M_ret_Ok. naive_solver.
  - split; [|naive_solver]. intros H. inv_run. done.
Qed.

Lemma known_citation_unknown source_map index cite err :
  dict_mem cite source_map = false →
  known_citation (float:=float) source_map index cite err
    = (Err (NameError "sys"), err).
Proof. unfold known_citation. by intros ->. Qed.

(** A run of the comprehension that returns has printed nothing, found
    every line in the table as it stands, and returns the keys of the
    stripped lines in line order. *)
Lemma resolve_citations_Ok source_map index lines err keys err' :
  resolve_citations (float:=float) source_map index lines err = (Ok keys, err') →
  err' = err ∧
  Forall (λ line, dict_mem line source_map = true) lines ∧
  Forall2 (λ line key, dict_get (strip line) source_map = Some key) lines keys.
Proof.
  revert keys err err'. induction lines as [|line lines IH]; intros keys err err'; simpl.
  - intros [<- ->]%M_ret_Ok. by split_and!; constructor.
  - intros (b & err1 & (Hmem & -> & ->)%known_citation_Ok & H)%M_bind_Ok.
    apply M_bind_Ok in H as (key & err2 & [Hkey%getitem_Ok ->]%lift_Ok & H).
    apply M_bind_Ok in H as (keys' & err3 & Hrec & [<- ->]%M_ret_Ok).
    destruct (IH _ _ _ Hrec) as (-> & ? & ?).
    split_and!; [done|by constructor|by constructor].
Qed.

Lemma loop_body_Ok languages codes source_map st index row err st' err' :
  loop_body float_str languages codes source_map st index row err = (Ok st', err') →
  ∃ lang_id lang lang_name citations,
    dict_get "Glottolog.Name" row = Some lang_id ∧
    dict_get (VStr lang_id) languages = Some lang ∧
    chain_get "Name" lang = Some lang_name ∧
    resolve_citations (float:=float) source_map index
      (splitlines (dict_get_default "Source" "" row)) err = (Ok citations, err') ∧
    let n := dict_get_default lang_id 0 (ords st) + 1 in
    st' = {| constructions := constructions st ++
               [ {| Construction.ID := format_constr_id lang_id n;
                    Construction.Name := format_constr_name float_str lang_name n;
                    Construction.Language_ID := lang_id;
                    Construction.Source := citations |} ];
             cvalues := cvalues st ++
               row_values codes (format_constr_id lang_id n) row;
             ords := dict_set lang_id n (ords st) |}.
Proof.
  unfold loop_body. intros H.
  apply M_bind_Ok in H as (lang_id & ? & [Hid%getitem_Ok ->]%lift_Ok & H).
  apply M_bind_Ok in H as (key & ? & [Hkey%getitem_Ok ->]%lift_Ok & H).
  apply M_bind_Ok in H as (lang & ? & [Hlang ->]%lift_Ok & H).
  apply M_bind_Ok in H as (lang_name & ? & [Hname%chain_getitem_Ok ->]%lift_Ok & H).
  apply M_bind_Ok in H as (citations & ? & Hcit & [<- ->]%M_ret_Ok).
  assert (key = lang_id) as -> by congruence.
  destruct (dict_get (VStr lang_id) languages) as [lang'|] eqn:Hl; [|done].
  injection Hlang as ->.
  exists lang_id, lang, lang_name, citations.
  assert (∀ n, dict_get_default lang_id 0 (dict_set lang_id n (ords st)) = n) as Hn.
  { intros n. unfold dict_get_default. by rewrite dict_get_set_eq. }
  rewrite !Hn. by split_and!.
Qed.

Lemma dict_get_default_set (k k' : string) (n : nat) (d : dict string nat) :
  dict_get_default k' 0 (dict_set k n d) =
    if decide (k = k') then n else dict_get_default k' 0 d.
Proof.
  unfold dict_get_default. case_decide as Hk.
  - subst. by rewrite dict_get_set_eq.
  - by rewrite dict_get_set_ne.
Qed.

(** What a run of the loop that returns has done: nothing was printed, the
    counters advanced by the number of rows of each language, one construction
    was appended per row, and the values appended stem from the rows. *)
Lemma loop_Ok languages codes source_map rows st err st' err' :
  loop float_str languages codes source_map st rows err = (Ok st', err') →
  err' = err ∧
  (∀ g, dict_get_default g 0 (ords st') =
          dict_get_default g 0 (ords st) + length (rows_of_language g rows.*2)) ∧
  ∃ cs vs,
    constructions st' = constructions st ++ cs ∧
    cvalues st' = cvalues st ++ vs ∧
    length cs = length rows ∧
    (∀ j index row, rows !! j = Some (index, row) →
       ∃ g lang name citations,
         dict_get "Glottolog.Name" row = Some g ∧
         dict_get (VStr g) languages = Some lang ∧
         chain_get "Name" lang = Some name ∧
         resolve_citations (float:=float) source_map index
           (splitlines (dict_get_default "Source" "" row)) err = (Ok citations, err) ∧
         cs !! j = Some
           {| Construction.ID :=
                format_constr_id g
                  (dict_get_default g 0 (ords st) +
                     length (rows_of_language g (take (S j) rows.*2)));
              Construction.Name :=
                format_constr_name float_str name
                  (dict_get_default g 0 (ords st) +
                     length (rows_of_language g (take (S j) rows.*2)));
              Construction.Language_ID := g;
              Construction.Source := citations |}) ∧
    (∀ v, v ∈ vs → ∃ row cid, row ∈ rows.*2 ∧ v ∈ row_values codes cid row).
Proof.
  revert st err. induction rows as [|[index row] rows IH]; intros st err; cbn [loop].
  - intros [<- ->]%M_ret_Ok. split; [done|]. split.
    { intros g. unfold rows_of_language. rewrite fmap_nil, filter_nil. cbn [length]. lia. }
    exists [], []. rewrite !app_nil_r. split_and!; try done.
    intros v []%elem_of_nil.
  - intros (st1 & err1 & Hbody & Hloop)%M_bind_Ok.
    apply loop_body_Ok in Hbody as (g0 & lang0 & name0 & cit0 & Hg0 & Hlang0 & Hname0 & Hcit0 & Hst1).
    cbv zeta in Hst1.
    destruct (resolve_citations_Ok _ _ _ _ _ _ Hcit0) as (-> & _ & _).
    apply IH in Hloop as (-> & Hords & cs & vs & Hcs & Hvs & Hlen & Hrows & Hvals).
    subst st1. cbn [constructions cvalues ords] in *.
    assert (∀ g, length (rows_of_language g (row :: rows.*2)) =
                 (if decide (g0 = g) then 1 else 0) + length (rows_of_language g rows.*2)) as Hcount.
    { intros g. unfold rows_of_language. rewrite filter_cons. rewrite Hg0.
      destruct (decide (g0 = g)) as [->|Hne].
      - by rewrite decide_True.
      - rewrite decide_False; [done|congruence]. }
    split; [reflexivity|]. split.
    { intros g. rewrite fmap_cons. cbn [snd].
      rewrite Hords, dict_get_default_set, Hcount. case_decide; subst; lia. }
    eexists (_ :: cs), (_ ++ vs).
    split; [by rewrite Hcs, <-app_assoc|].
    split; [by rewrite Hvs, <-app_assoc|].
    split; [cbn [length]; by rewrite Hlen|].
    split.
    + intros [|j] index' row' Hj.
      * injection Hj as <- <-. exists g0, lang0, name0, cit0.
        split; [done|]. split; [done|]. split; [done|]. split; [done|].
        rewrite fmap_cons. cbn [snd take]. unfold rows_of_language.
        rewrite filter_cons, Hg0, decide_True, take_0, filter_nil by done.
        reflexivity.
      * change (((index, row) :: rows) !! S j) with (rows !! j) in Hj.
        destruct (Hrows _ _ _ Hj) as (g & lang & name & cit & ? & ? & ? & ? & Hc).
        exists g, lang, name, cit.
        split; [done|]. split; [done|]. split; [done|]. split; [done|].
        change ((?x :: cs) !! S j) with (cs !! j). rewrite Hc.
        rewrite fmap_cons. cbn [snd].
        change (take (S (S j)) (row :: rows.*2)) with (row :: take (S j) rows.*2).
        assert (dict_get_default g 0 (dict_set g0 (dict_get_default g0 0 (ords st) + 1) (ords st))
                  + length (rows_of_language g (take (S j) rows.*2))
                = dict_get_default g 0 (ords st)
                  + length (rows_of_language g (row :: take (S j) rows.*2))) as ->; [|reflexivity].
        rewrite dict_get_default_set. unfold rows_of_language at 2.
        rewrite filter_cons, Hg0.
        destruct (decide (g0 = g)) as [->|Hne].
        -- rewrite decide_True by done. cbn [length]. unfold rows_of_language.
           match goal with
           | |- _ + 1 + ?x = _ + S ?y => change y with x; generalize x
           end.
           intros; lia.
        -- rewrite decide_False by congruence. reflexivity.
    + intros v [Hv|Hv]%elem_of_app.
      * exists row. eexists. split; [rewrite fmap_cons; left|exact Hv].
      * destruct (Hvals _ Hv) as (row' & cid & ? & ?). exists row', cid.
        split; [rewrite fmap_cons; by right|done].
Qed.
End Loop.

(** ** The code vocabulary *)

Lemma elem_of_sorted_set l x : x ∈ sorted_set l ↔ x ∈ l.
Proof.
  unfold sorted_set. rewrite merge_sort_Permutation. apply elem_of_remove_dups.
Qed.

Lemma NoDup_sorted_set l : NoDup (sorted_set l).
Proof.
  unfold sorted_set. rewrite merge_sort_Permutation. apply NoDup_remove_dups.
Qed.

Lemma StronglySorted_sorted_set l : StronglySorted String.le (sorted_set l).
Proof. apply (StronglySorted_merge_sort _). Qed.

(** Earlier entries of [sorted(set(l))] are strictly below later ones. *)
Lemma sorted_set_lookup_lt l i j a b :
  sorted_set l !! i = Some a → sorted_set l !! j = Some b → i < j →
  String.le a b ∧ a ≠ b.
Proof.
  intros Hi Hj Hij. split.
  - pose proof (StronglySorted_sorted_set l) as Hs.
    apply (StronglySorted_app_1_elem_of String.le (take j (sorted_set l)) (drop j (sorted_set l))).
    + by rewrite take_drop.
    + apply list_elem_of_lookup. exists i. by rewrite lookup_take_lt.
    + apply list_elem_of_lookup. exists 0. by rewrite lookup_drop, Nat.add_0_r.
  - intros ->. pose proof (NoDup_sorted_set l) as Hn.
    pose proof (NoDup_lookup _ _ _ _ Hn Hi Hj). lia.
Qed.

Lemma elem_of_observed column data v :
  v ∈ observed column data ↔
  ∃ row w, row ∈ data ∧ dict_get column row = Some w ∧ w ≠ "" ∧ v = unify_na w.
Proof.
  unfold observed. rewrite list_elem_of_omap. split.
  - intros (row & Hrow & H). destruct (dict_get column row) as [w|] eqn:Hw; [|done].
    destruct (truthy w) eqn:Ht; [|done]. injection H as <-.
    exists row, w. by rewrite <-truthy_true.
  - intros (row & w & Hrow & Hw & Hne & ->). exists row. split; [done|].
    rewrite Hw. apply truthy_true in Hne. by rewrite Hne.
Qed.

Lemma enumerate_lookup {A} (l : list A) i :
  enumerate l !! i = (λ x, (i, x)) <$> l !! i.
Proof. unfold enumerate. apply list_lookup_imap. Qed.

Lemma enumerate_snd {A} (l : list A) : (enumerate l).*2 = l.
Proof.
  apply list_eq. intros i. rewrite list_lookup_fmap, enumerate_lookup.
  by destruct (l !! i).
Qed.

Lemma elem_of_enumerate {A} (l : list A) i x :
  (i, x) ∈ enumerate l ↔ l !! i = Some x.
Proof.
  rewrite list_elem_of_lookup. split.
  - intros (j & Hj). rewrite enumerate_lookup in Hj.
    destruct (l !! j) eqn:E; simplify_eq/=. done.
  - intros H. exists i. by rewrite enumerate_lookup, H.
Qed.

(** The vocabulary has the six coded parameters, in the order of
    [PARAMETER_COLUMNS]; the marker column has no entry. *)
Lemma make_code_dict_eq data :
  make_code_dict data =
    (λ cp : string * string, (cp.2, sorted_set (observed cp.1 data)))
      <$> filter (λ cp, cp.2 ≠ "ap-marker") PARAMETER_COLUMNS.
Proof. reflexivity. Qed.

Lemma dict_get_make_code_dict data column param :
  (column, param) ∈ PARAMETER_COLUMNS → param ≠ "ap-marker" →
  dict_get param (make_code_dict data) = Some (sorted_set (observed column data)).
Proof.
  intros Hin Hne. rewrite make_code_dict_eq.
  unfold PARAMETER_COLUMNS in Hin. set_unfold in Hin.
  destruct Hin as [[= -> ->]|[[= -> ->]|[[= -> ->]|[[= -> ->]|[[= -> ->]|[[= -> ->]|[[= -> ->]|[]]]]]]]];
    done.
Qed.

Lemma dict_set_fresh {K V} `{!EqDecision K} (k : K) (v : V) (d : dict K V) :
  k ∉ dict_keys d → dict_set k v d = d ++ [(k, v)].
Proof.
  unfold dict_keys. induction d as [|[k' v'] d IH]; csimpl; [done|].
  intros [? ?]%not_elem_of_cons. rewrite decide_False by done. by rewrite IH.
Qed.

(** Items with pairwise distinct keys make the dictionary that lists them. *)
Lemma dict_of_items_id {K V} `{!EqDecision K} (items : list (K * V)) :
  NoDup items.*1 → dict_of_items items = items.
Proof.
  induction items as [|[k v] items IH] using rev_ind; [done|].
  rewrite fmap_app. intros (Hnd & Hk & _)%NoDup_app.
  unfold dict_of_items in *. rewrite dict_update_snoc, IH by done.
  apply dict_set_fresh. intros Hin. apply (Hk k Hin). set_solver.
Qed.


Lemma elem_of_code_items code_dict k c :
  (k, c) ∈ code_items code_dict ↔
  ∃ names i, (k.1, names) ∈ code_dict ∧ names !! i = Some k.2 ∧
             c = make_code k.1 i k.2.
Proof.
  unfold code_items. rewrite list_elem_of_bind. split.
  - intros ([p names] & Hin & Hpc). simpl in Hin.
    apply list_elem_of_fmap in Hin as ([i name] & [= -> ->] & Hi%elem_of_enumerate).
    by exists names, i.
  - intros (names & i & Hpc & Hi & ->). exists (k.1, names). split; [|done].
    apply list_elem_of_fmap. exists (i, k.2). simpl. split; [by destruct k|].
    by apply elem_of_enumerate.
Qed.

Lemma code_items_keys code_dict :
  (code_items code_dict).*1 = pc ← code_dict; pair pc.1 <$> pc.2.
Proof.
  unfold code_items. induction code_dict as [|[p names] d IH]; [done|].
  rewrite !bind_cons, fmap_app, IH. f_equal. simpl.
  rewrite <-list_fmap_compose. rewrite <-(enumerate_snd names) at 2.
  by rewrite <-list_fmap_compose.
Qed.

Lemma NoDup_code_items code_dict :
  NoDup code_dict.*1 →
  (∀ p names, (p, names) ∈ code_dict → NoDup names) →
  NoDup (code_items code_dict).*1.
Proof.
  rewrite code_items_keys.
  induction code_dict as [|[p names] d IH]; intros Hkeys Hnames; [constructor|].
  rewrite bind_cons. rewrite fmap_cons in Hkeys. apply NoDup_cons in Hkeys as [Hp Hd].
  apply NoDup_app. split_and!.
  - simpl. apply (NoDup_fmap_2 _). apply (Hnames p). left.
  - intros [p' n'] [n [[= -> ->] _]]%list_elem_of_fmap
      ([q ns] & [n2 [[= <- _] _]]%list_elem_of_fmap & Hq)%list_elem_of_bind.
    apply Hp. apply list_elem_of_fmap. by exists (p, ns).
  - apply IH; [done|]. intros q ns Hq. apply (Hnames q). by right.
Qed.

Lemma make_codes_eq data :
  make_codes (make_code_dict data) = code_items (make_code_dict data).
Proof.
  unfold make_codes. apply dict_of_items_id, NoDup_code_items.
  - rewrite make_code_dict_eq. apply (bool_decide_unpack _). by vm_compute.
  - intros p names Hin. rewrite make_code_dict_eq in Hin.
    apply list_elem_of_fmap in Hin as (cp & [= _ ->] & _). apply NoDup_sorted_set.
Qed.

Lemma elem_of_make_code_dict data param names :
  (param, names) ∈ make_code_dict data ↔
  ∃ column, (column, param) ∈ PARAMETER_COLUMNS ∧ param ≠ "ap-marker" ∧
            names = sorted_set (observed column data).
Proof.
  rewrite make_code_dict_eq, list_elem_of_fmap. split.
  - intros ([column p] & [= -> ->] & [? ?]%list_elem_of_filter). by exists column.
  - intros (column & Hin & Hne & ->). exists (column, param). split; [done|].
    by apply list_elem_of_filter.
Qed.

(** The code of a parameter and one of its values, as [codes.get] finds it. *)
Lemma dict_get_make_codes data column param i name :
  (column, param) ∈ PARAMETER_COLUMNS → param ≠ "ap-marker" →
  sorted_set (observed column data) !! i = Some name →
  dict_get (param, name) (make_codes (make_code_dict data))
    = Some (make_code param i name).
Proof.
  intros Hin Hne Hi. rewrite make_codes_eq. apply dict_get_NoDup.
  - rewrite <-make_codes_eq. apply dict_of_items_NoDup.
  - apply elem_of_code_items. exists (sorted_set (observed column data)), i.
    split_and!; [|done..]. apply elem_of_make_code_dict. by exists column.
Qed.

Lemma dict_get_make_codes_marker data name :
  dict_get ("ap-marker", name) (make_codes (make_code_dict data)) = None.
Proof.
  apply dict_get_None. rewrite make_codes_eq. unfold dict_keys.
  intros ([k c] & [= <-] & Hin)%list_elem_of_fmap.
  apply elem_of_code_items in Hin as (names & i & Hd & _).
  apply elem_of_make_code_dict in Hd as (column & _ & Hne & _). done.
Qed.

Lemma code_id_scoped param param' column column' s s' :
  (column, param) ∈ PARAMETER_COLUMNS → (column', param') ∈ PARAMETER_COLUMNS →
  param +:+ "-c" +:+ s = param' +:+ "-c" +:+ s' → param = param'.
Proof.
  unfold PARAMETER_COLUMNS. intros Hin Hin'. set_unfold in Hin. set_unfold in Hin'.
  destruct Hin as [[= -> ->]|[[= -> ->]|[[= -> ->]|[[= -> ->]|[[= -> ->]|[[= -> ->]|[[= -> ->]|[]]]]]]]];
  destruct Hin' as [[= -> ->]|[[= -> ->]|[[= -> ->]|[[= -> ->]|[[= -> ->]|[[= -> ->]|[[= -> ->]|[]]]]]]]];
    try reflexivity; cbv [append]; intros H; discriminate H.
Qed.

(** C5.  For every parameter other than the marker, the vocabulary
    [code_dict[param]] holds exactly the NA-unified values of the rows with a
    non-empty cell in the parameter's column, without repetition and in
    strictly increasing code-point order; the code of the value at (0-based)
    position [i] is the record with identifier [<param>-c<i+1>], and every
    code of the parameter in the code table is one of these.  Codes belong to
    a parameter: a value observed under two parameters has two codes, with
    different identifiers. *)
Theorem code_vocabulary_spec (data : list Row) column param :
  (column, param) ∈ PARAMETER_COLUMNS → param ≠ "ap-marker" →
  ∃ names,
    dict_get param (make_code_dict data) = Some names ∧
    (∀ v, v ∈ names ↔
       ∃ row w, row ∈ data ∧ dict_get column row = Some w ∧ w ≠ "" ∧ v = unify_na w) ∧
    NoDup names ∧
    (∀ i j a b, names !! i = Some a → names !! j = Some b → i < j →
       String.le a b ∧ a ≠ b) ∧
    (∀ i name, names !! i = Some name →
       dict_get (param, name) (make_codes (make_code_dict data)) =
         Some {| Code.ID := param +:+ "-c" +:+ str_of_nat (i + 1);
                 Code.Parameter_ID := param;
                 Code.Name := name |}) ∧
    (∀ code, code ∈ dict_values (make_codes (make_code_dict data)) →
       Code.Parameter_ID code = param →
       ∃ i, names !! i = Some (Code.Name code) ∧
            Code.ID code = param +:+ "-c" +:+ str_of_nat (i + 1)) ∧
    (∀ column' param' name,
       (column', param') ∈ PARAMETER_COLUMNS → param' ≠ "ap-marker" →
       param' ≠ param →
       name ∈ names → name ∈ sorted_set (observed column' data) →
       ∃ code code',
         dict_get (param, name) (make_codes (make_code_dict data)) = Some code ∧
         dict_get (param', name) (make_codes (make_code_dict data)) = Some code' ∧
         Code.ID code ≠ Code.ID code').
Proof.
  intros Hin Hne. exists (sorted_set (observed column data)).
  split_and!.
  - by apply dict_get_make_code_dict.
  - intros v. by rewrite elem_of_sorted_set, elem_of_observed.
  - apply NoDup_sorted_set.
  - intros i j a b. apply sorted_set_lookup_lt.
  - intros i name Hi. by apply (dict_get_make_codes _ column).
  - intros code Hcode Hparam. rewrite make_codes_eq in Hcode.
    apply list_elem_of_fmap in Hcode as ([[p n] c] & -> & Hk). cbn [snd] in *.
    apply elem_of_code_items in Hk as (names & i & Hd & Hi & ->).
    cbn [fst snd make_code Code.Parameter_ID Code.Name Code.ID] in *.
    subst param. exists i. split; [|done].
    apply elem_of_make_code_dict in Hd as (column' & Hin' & _ & ->).
    pose proof (dict_get_make_code_dict data _ _ Hin Hne) as H1.
    pose proof (dict_get_make_code_dict data _ _ Hin' Hne) as H2.
    rewrite H1 in H2. injection H2 as ->. done.
  - intros column' param' name Hin' Hne' Hdiff [i Hi]%list_elem_of_lookup
      [j Hj]%list_elem_of_lookup.
    eexists _, _. split_and!.
    + by apply (dict_get_make_codes _ column).
    + by apply (dict_get_make_codes _ column').
    + unfold make_code. cbn [Code.ID]. intros Heq. apply Hdiff. symmetry.
      exact (code_id_scoped _ _ _ _ _ _ Hin Hin' Heq).
Qed.

(** ** The command as a whole *)

Section Command.
Context {float : Type} `{!EqDecision float} (float_str : float → string).
Implicit Types (inp : @Input float) (out : @Output float) (err : list string).

(** The stages of a run that returns. *)
Lemma cmd_makecldf_Ok inp err out err' :
  cmd_makecldf float_str inp err = (Ok out, err') →
  ∃ lang_info table ids st,
    make_lang_info (float:=float) (normalise_table (raw_data inp)) = Ok lang_info ∧
    make_language_table (glottolog inp) lang_info = Ok table ∧
    mapM (chain_getitem "ID") table = Ok ids ∧
    loop float_str (dict_of_items (zip ids table))
      (make_codes (make_code_dict (normalise_table (raw_data inp))))
      (make_source_map (citations_to_bibtex inp))
      {| constructions := []; cvalues := []; ords := [] |}
      (enumerate (normalise_table (raw_data inp))) err = (Ok st, err') ∧
    out = {| LanguageTable := dict_values (dict_of_items (zip ids table));
             ParameterTable := parameters_csv inp;
             CodeTable :=
               dict_values (make_codes (make_code_dict (normalise_table (raw_data inp))));
             ValueTable := [];
             constructions_csv := constructions st;
             cvalues_csv := cvalues st |}.
Proof.
  unfold cmd_makecldf. intros H.
  apply M_bind_Ok in H as (lang_info & ? & [Hinfo ->]%lift_Ok & H).
  apply M_bind_Ok in H as (table & ? & [Htable ->]%lift_Ok & H).
  apply M_bind_Ok in H as (ids & ? & [Hids ->]%lift_Ok & H).
  apply M_bind_Ok in H as (st & ? & Hloop & [<- ->]%M_ret_Ok).
  by exists lang_info, table, ids, st.
Qed.

(** What [cvalues.extend] adds for a row of the data. *)
Lemma elem_of_row_values data row cid cv :
  row ∈ data →
  cv ∈ row_values (make_codes (make_code_dict data)) cid row →
  ∃ column param v,
    (column, param) ∈ PARAMETER_COLUMNS ∧
    dict_get column row = Some v ∧ v ≠ "" ∧
    CValue.ID cv = cid +:+ "-" +:+ param ∧
    CValue.Construction_ID cv = cid ∧
    CValue.Parameter_ID cv = param ∧
    CValue.Value cv = unify_na v ∧
    ((param = "ap-marker" ∧ CValue.Code_ID cv = None) ∨
     (param ≠ "ap-marker" ∧
      ∃ i, sorted_set (observed column data) !! i = Some (unify_na v) ∧
           CValue.Code_ID cv = Some (param +:+ "-c" +:+ str_of_nat (i + 1)))).
Proof.
  intros Hrow Hcv. unfold row_values in Hcv.
  apply list_elem_of_omap in Hcv as ([column param] & Hin & Hcv). cbn [fst snd] in Hcv.
  destruct (dict_get column row) as [v|] eqn:Hv; [|done].
  destruct (truthy v) eqn:Ht; [|done]. apply truthy_true in Ht.
  injection Hcv as <-. exists column, param, v.
  cbn [CValue.ID CValue.Construction_ID CValue.Parameter_ID CValue.Value CValue.Code_ID].
  split_and!; try done.
  destruct (decide (param = "ap-marker")) as [->|Hne].
  - left. split; [done|]. by rewrite dict_get_make_codes_marker.
  - right. split; [done|].
    assert (unify_na v ∈ sorted_set (observed column data)) as [i Hi]%list_elem_of_lookup.
    { apply elem_of_sorted_set, elem_of_observed. by exists row, v. }
    exists i. split; [done|].
    by rewrite (dict_get_make_codes data column param i).
Qed.

(** C4.  In the output of a run that returns, a value of the marker
    parameter carries no code reference, and a value of any other parameter
    carries the identifier of the one code of the code table that has the
    value's parameter and its (NA-unified) value as name. *)
Theorem value_code_linkage inp err out err' :
  cmd_makecldf float_str inp err = (Ok out, err') →
  ∀ cv, cv ∈ cvalues_csv out →
    (CValue.Parameter_ID cv = "ap-marker" → CValue.Code_ID cv = None) ∧
    (CValue.Parameter_ID cv ≠ "ap-marker" →
     ∃ code,
       code ∈ CodeTable out ∧
       Code.Parameter_ID code = CValue.Parameter_ID cv ∧
       Code.Name code = CValue.Value cv ∧
       CValue.Code_ID cv = Some (Code.ID code) ∧
       ∀ code', code' ∈ CodeTable out →
                Code.Parameter_ID code' = CValue.Parameter_ID cv →
                Code.Name code' = CValue.Value cv → code' = code).
Proof.
  intros (lang_info & table & ids & st & _ & _ & _ & Hloop & ->)%cmd_makecldf_Ok cv Hcv.
  cbn [cvalues_csv CodeTable] in *.
  apply loop_Ok in Hloop as (_ & _ & cs & vs & _ & Hvs & _ & _ & Hvals).
  cbn [cvalues app] in Hvs. rewrite Hvs in Hcv.
  destruct (Hvals _ Hcv) as (row & cid & Hrow & Hin). rewrite enumerate_snd in Hrow.
  apply (elem_of_row_values _ _ _ _ Hrow) in Hin
    as (column & param & v & Hpc & Hv & Hne & _ & _ & Hp & Hval & Hcode).
  rewrite Hp, Hval.
  destruct Hcode as [[-> Hnone]|[Hnm (i & Hi & Hsome)]]; split; try done.
  intros _. exists (make_code param i (unify_na v)).
  split_and!; try done.
  - rewrite make_codes_eq. apply list_elem_of_fmap.
    exists ((param, unify_na v), make_code param i (unify_na v)). split; [done|].
    apply elem_of_code_items. exists (sorted_set (observed column (normalise_table (raw_data inp)))), i.
    split_and!; [|done..]. apply elem_of_make_code_dict. by exists column.
  - intros code' Hin' Hp' Hn'. rewrite make_codes_eq in Hin'.
    apply list_elem_of_fmap in Hin' as ([[p n] c] & -> & Hk). cbn [snd] in *.
    apply elem_of_code_items in Hk as (names & j & Hd & Hj & ->).
    cbn [fst snd make_code Code.Parameter_ID Code.Name] in *. subst p n.
    apply elem_of_make_code_dict in Hd as (column' & Hin'' & _ & ->).
    pose proof (dict_get_make_code_dict (normalise_table (raw_data inp)) _ _ Hpc Hnm) as H1.
    pose proof (dict_get_make_code_dict (normalise_table (raw_data inp)) _ _ Hin'' Hnm) as H2.
    rewrite H1 in H2. injection H2 as H2. rewrite <-H2 in Hj.
    pose proof (NoDup_lookup _ _ _ _ (NoDup_sorted_set _) Hi Hj) as ->. done.
Qed.
End Command.

Lemma length_enumerate {A} (l : list A) : length (enumerate l) = length l.
Proof. apply length_imap. Qed.

Lemma Forall2_elem_of_zip {A B} (P : A → B → Prop) (l : list A) (k : list B) x y :
  Forall2 P l k → (y, x) ∈ zip k l → P x y.
Proof.
  induction 1 as [|a b l k Hab _ IH]; simpl; [by intros ?%elem_of_nil|].
  intros [[= -> ->]|?]%elem_of_cons; auto.
Qed.

(** The identifiers of the constructions of one language, read off a
    per-row description of the list. *)
Lemma ids_of_language (f : nat → string) (g : string) (data : list Row)
    (cs : list Construction.t) :
  length cs = length data →
  (∀ i row, data !! i = Some row →
     ∃ g' c, dict_get "Glottolog.Name" row = Some g' ∧ cs !! i = Some c ∧
             Construction.Language_ID c = g' ∧
             (g' = g →
              Construction.ID c = f (length (rows_of_language g (take (S i) data))))) →
  Construction.ID <$> filter (λ c, Construction.Language_ID c = g) cs
    = f <$> seq 1 (length (rows_of_language g data)).
Proof.
  intros Hlen Hrows.
  assert (∀ k, (k ≤ length data)%nat →
    Construction.ID <$> filter (λ c, Construction.Language_ID c = g) (take k cs)
      = f <$> seq 1 (length (rows_of_language g (take k data)))) as Hk.
  { induction k as [|k IH]; intros Hle.
    - by rewrite !take_0.
    - destruct (lookup_lt_is_Some_2 data k) as [row Hrow]; [lia|].
      destruct (Hrows _ _ Hrow) as (g' & c & Hg' & Hc & Hlang & Hid).
      rewrite (take_S_r _ _ _ Hc), (take_S_r _ _ _ Hrow) in *.
      unfold rows_of_language in *.
      rewrite !filter_app, !filter_cons, !filter_nil, fmap_app, IH by lia.
      rewrite Hg', Hlang. destruct (decide (g' = g)) as [->|Hne].
      + rewrite !decide_True by done. rewrite length_app. cbn [length].
        rewrite seq_app, fmap_app. f_equal. cbn [seq fmap list_fmap].
        rewrite Hid by done. rewrite filter_app, filter_cons, filter_nil, Hg'.
        rewrite decide_True by done. rewrite length_app. cbn [length].
        do 2 f_equal. lia.
      + rewrite decide_False by congruence. by rewrite !app_nil_r. }
  specialize (Hk (length data) (Nat.le_refl _)).
  rewrite <-Hlen in Hk at 1. by rewrite !firstn_all in Hk.
Qed.

Section Constructions.
Context {float : Type} `{!EqDecision float} (float_str : float → string).
Implicit Types (inp : @Input float) (out : @Output float) (err : list string).

(** C6.  A run that returns emits one construction per normalised row, in
    row order.  The construction of a row carries the row's language
    identifier, the identifier [<language-id>-ap<n>] and the name
    [<Name of the language row> Antipassive Construction <n>], where [n]
    counts the rows of that language up to and including this one; so the
    constructions of a language with [k] rows are numbered ap1 to ap[k] in
    row order, whatever rows of other languages lie between them. *)
Theorem constructions_spec inp err out err' :
  cmd_makecldf float_str inp err = (Ok out, err') →
  length (constructions_csv out) = length (normalise_table (raw_data inp)) ∧
  (∀ i row, normalise_table (raw_data inp) !! i = Some row →
     ∃ lang_id lang name c,
       dict_get "Glottolog.Name" row = Some lang_id ∧
       constructions_csv out !! i = Some c ∧
       lang ∈ LanguageTable out ∧
       chain_get "ID" lang = Some (VStr lang_id) ∧
       chain_get "Name" lang = Some name ∧
       Construction.Language_ID c = lang_id ∧
       Construction.ID c =
         lang_id +:+ "-ap" +:+
           str_of_nat (length (rows_of_language lang_id
                                 (take (S i) (normalise_table (raw_data inp))))) ∧
       Construction.Name c =
         py_str float_str name +:+ " Antipassive Construction " +:+
           str_of_nat (length (rows_of_language lang_id
                                 (take (S i) (normalise_table (raw_data inp)))))) ∧
  (∀ lang_id,
     Construction.ID <$>
       filter (λ c, Construction.Language_ID c = lang_id) (constructions_csv out)
     = (λ n, lang_id +:+ "-ap" +:+ str_of_nat n) <$>
         seq 1 (length (rows_of_language lang_id (normalise_table (raw_data inp))))).
Proof.
  intros (lang_info & table & ids & st & _ & _ & Hids & Hloop & ->)%cmd_makecldf_Ok.
  cbn [constructions_csv LanguageTable].
  apply loop_Ok in Hloop as (_ & _ & cs & vs & Hcs & _ & Hlen & Hrows & _).
  cbn [constructions app ords] in *. rewrite Hcs. clear Hcs.
  rewrite length_enumerate in Hlen. apply mapM_res_Ok in Hids.
  assert (∀ i row, normalise_table (raw_data inp) !! i = Some row →
    ∃ lang_id lang name c,
       dict_get "Glottolog.Name" row = Some lang_id ∧
       cs !! i = Some c ∧
       lang ∈ dict_values (dict_of_items (zip ids table)) ∧
       chain_get "ID" lang = Some (VStr lang_id) ∧
       chain_get "Name" lang = Some name ∧
       Construction.Language_ID c = lang_id ∧
       Construction.ID c =
         format_constr_id lang_id
           (length (rows_of_language lang_id
                      (take (S i) (normalise_table (raw_data inp))))) ∧
       Construction.Name c =
         format_constr_name float_str name
           (length (rows_of_language lang_id
                      (take (S i) (normalise_table (raw_data inp)))))) as Hpt.
  { intros i row Hi.
    destruct (Hrows i i row) as (g & lang & name & cit & Hg & Hlang & Hname & _ & Hc).
    { by rewrite enumerate_lookup, Hi. }
    rewrite enumerate_snd in Hc. unfold dict_get_default in Hc at 1 2.
    cbn [dict_get] in Hc. rewrite !Nat.add_0_l in Hc.
    apply dict_get_Some in Hlang.
    exists g, lang, name. eexists. split_and!; [done|exact Hc| | |done..].
    - apply list_elem_of_fmap. by exists (VStr g, lang).
    - apply elem_of_dict_of_items in Hlang.
      apply (Forall2_elem_of_zip _ _ _ _ _ Hids) in Hlang.
      by apply chain_getitem_Ok in Hlang. }
  split_and!; [done|exact Hpt|].
  intros lang_id. apply (ids_of_language (format_constr_id lang_id)); [done|].
  intros i row Hi. destruct (Hpt i row Hi) as (g & lang & name & c & ? & ? & _ & _ & _ & ? & Hid & _).
  exists g, c. split_and!; [done..|]. intros <-. done.
Qed.
End Constructions.

(** ** The language table *)

Lemma filter_fmap_comm {A B} (f : A → B) (P : B → Prop) `{!∀ y, Decision (P y)}
    (l : list A) :
  filter P (f <$> l) = f <$> filter (λ x, P (f x)) l.
Proof.
  induction l as [|x l IH]; [done|].
  rewrite fmap_cons, !filter_cons, IH. by case_decide.
Qed.

Section LanguageTable.
Context {float : Type} `{!EqDecision float}.
Implicit Types (catalog : list (Languoid.t float)) (data : list Row)
  (lang_info : dict string (dict string string)).

Lemma lang_info_item_Ok row item :
  lang_info_item (float:=float) row = Ok item ↔
  dict_get "Glottolog.Name" row = Some item.1 ∧
  item.2 = lang_info_value item.1 row.
Proof.
  unfold lang_info_item. destruct item as [g info]. cbn [fst snd].
  rewrite res_bind_Ok. split.
  - intros (key & Hkey%getitem_Ok & (ID & HID%getitem_Ok & [= <- <-])%res_bind_Ok).
    split; [done|]. congruence.
  - intros [Hg ->]. exists g. split; [by apply getitem_Ok|].
    apply res_bind_Ok. exists g. split; [by apply getitem_Ok|done].
Qed.

Lemma lang_info_item_Err row e :
  lang_info_item (float:=float) row = Err e →
  dict_get "Glottolog.Name" row = None ∧ e = KeyError (VStr "Glottolog.Name").
Proof.
  unfold lang_info_item.
  intros [H%getitem_Err|(key & Hkey & [H%getitem_Err|(ID & _ & [=])]%res_bind_Err)]%res_bind_Err;
    done.
Qed.

(** [lang_info] has one entry per language identifier of the data; the
    entry is built from the last row of that language. *)
Lemma make_lang_info_Ok data lang_info :
  make_lang_info (float:=float) data = Ok lang_info →
  Forall (λ row, is_Some (dict_get "Glottolog.Name" row)) data ∧
  NoDup (dict_keys lang_info) ∧
  (∀ g, g ∈ dict_keys lang_info ↔
        ∃ row, row ∈ data ∧ dict_get "Glottolog.Name" row = Some g) ∧
  (∀ g, dict_get g lang_info =
        lang_info_value g <$> last (rows_of_language g data)) ∧
  (∀ g info, (g, info) ∈ lang_info → dict_get "ID" info = Some g).
Proof.
  unfold make_lang_info.
  intros (items & Hitems%mapM_res_Ok & [= <-])%res_bind_Ok.
  assert (Forall2 (λ row item, dict_get "Glottolog.Name" row = Some item.1 ∧
                               item.2 = lang_info_value item.1 row) data items) as H.
  { eapply Forall2_impl; [exact Hitems|]. intros row item. apply lang_info_item_Ok. }
  clear Hitems. split_and!.
  - eapply Forall2_Forall_l; [exact H|]. apply Forall_forall. intros item _ row [Hg _]. eauto.
  - apply dict_of_items_NoDup.
  - intros g. unfold dict_of_items. rewrite dict_keys_update.
    unfold dict_keys. rewrite fmap_nil, elem_of_nil.
    split.
    + intros [[]|([g' info] & -> & Hin)%list_elem_of_fmap].
      apply list_elem_of_lookup in Hin as [i Hi].
      destruct (Forall2_lookup_r _ _ _ _ _ H Hi) as (row & Hrow & Hg & _).
      exists row. split; [|done]. apply list_elem_of_lookup. eauto.
    + intros (row & [i Hi]%list_elem_of_lookup & Hg). right.
      destruct (Forall2_lookup_l _ _ _ _ _ H Hi) as (item & Hitem & Hg' & _).
      apply list_elem_of_fmap. exists item. split; [congruence|].
      apply list_elem_of_lookup. eauto.
  - intros g. rewrite dict_get_of_items. unfold rows_of_language.
    induction H as [|row [g' info] data items [Hg Hinfo] _ IH]; [done|].
    cbn [fst snd] in *. subst info. rewrite !filter_cons. cbn [fst]. rewrite Hg.
    destruct (decide (g' = g)) as [->|Hne].
    + rewrite decide_True by done. rewrite !last_cons.
      destruct (last (filter _ items)) as [kv|] eqn:E1;
        destruct (last (filter _ data)) as [r|] eqn:E2;
        cbn in IH |- *; congruence.
    + rewrite decide_False by congruence. done.
  - intros g info Hin%elem_of_dict_of_items.
    apply list_elem_of_lookup in Hin as [i Hi].
    destruct (Forall2_lookup_r _ _ _ _ _ H Hi) as (row & _ & _ & Hinfo).
    cbn [fst snd] in Hinfo. subst info. unfold lang_info_value. cbn [dict_get].
    by rewrite decide_True.
Qed.

Lemma make_lang_info_Err data e :
  make_lang_info (float:=float) data = Err e → e = KeyError (VStr "Glottolog.Name").
Proof.
  unfold make_lang_info.
  intros [(row & _ & [_ ->]%lang_info_item_Err)%mapM_res_Err|(items & _ & [=])]%res_bind_Err.
  done.
Qed.

(** Every value of [lang_info] has its key under ['ID']. *)
Lemma lang_info_ids lang_info :
  (∀ g info, (g, info) ∈ lang_info → dict_get "ID" info = Some g) →
  mapM (getitem (float:=float) "ID") (dict_values lang_info) = Ok (dict_keys lang_info).
Proof.
  intros H. apply mapM_res_Ok. unfold dict_values, dict_keys.
  induction lang_info as [|[g info] d IH]; [constructor|].
  rewrite !fmap_cons. constructor.
  - apply getitem_Ok, H. left.
  - apply IH. intros g' info' Hin. apply H. by right.
Qed.

(** The catalogue entry that [nodemap] holds for an identifier: the last
    languoid of the catalogue with that id. *)
Lemma dict_get_nodemap catalog glottocodes g :
  g ∈ glottocodes →
  dict_get g (dict_of_items
                ((λ l, (Languoid.id l, l)) <$> languoids catalog glottocodes))
    = last (filter (λ l, Languoid.id l = g) catalog).
Proof.
  intros Hg. rewrite dict_get_of_items, filter_fmap_comm, fmap_last.
  cbn [fst]. unfold languoids. rewrite list_filter_filter_l.
  - by destruct (last _).
  - by intros l ->.
Qed.

(** The rows of the language table of a call that returns. *)
Lemma make_language_table_Ok catalog lang_info table :
  (∀ g info, (g, info) ∈ lang_info → dict_get "ID" info = Some g) →
  make_language_table catalog lang_info = Ok table →
  Forall2 (λ g lang, ∃ node info,
             last (filter (λ l, Languoid.id l = g) catalog) = Some node ∧
             dict_get g lang_info = Some info ∧
             lang = [id_layer g node; local_layer info; catalog_layer node])
          (sorted_set (dict_keys lang_info)) table.
Proof.
  intros Hid. unfold make_language_table. rewrite (lang_info_ids _ Hid).
  cbn [mbind res_bind]. intros H%mapM_res_Ok.
  apply Forall2_same_length_lookup. split; [by eapply Forall2_length|].
  intros i g lang Hg Hlang.
  destruct (Forall2_lookup_l _ _ _ _ _ H Hg) as (lang' & Hlang' & Hrow).
  assert (lang' = lang) as -> by congruence.
  apply res_bind_Ok in Hrow as (node & Hnode%getitem_Ok & Hrow).
  apply res_bind_Ok in Hrow as (info & Hinfo%getitem_Ok & [= <-]).
  exists node, info. split_and!; [|done..].
  rewrite <-Hnode. symmetry. apply dict_get_nodemap.
  apply list_elem_of_lookup. eauto.
Qed.
End LanguageTable.

Section LanguageRows.
Context {float : Type} `{!EqDecision float} (float_str : float → string).
Implicit Types (inp : @Input float) (out : @Output float) (err : list string).

(** [{k: v for k, v in info.items() if k and v}] keeps the true values
    ([info] has no empty key). *)
Lemma dict_get_local_layer (info : dict string string) k :
  NoDup (dict_keys info) → "" ∉ dict_keys info →
  dict_get k (local_layer (float:=float) info) =
    match dict_get k info with
    | Some v => if decide (v = "") then None else Some (VStr v)
    | None => None
    end.
Proof.
  unfold local_layer, dict_keys. intros Hnd Hne.
  rewrite dict_of_items_id.
  2:{ rewrite <-list_fmap_compose.
      apply (sublist_NoDup _ info.*1); [done|].
      change (fst ∘ (λ kv : string * string, (kv.1, @VStr float kv.2)))
        with (@fst string string).
      apply fmap_sublist, sublist_filter. }
  induction info as [|[k' v] info IH]; [done|].
  rewrite fmap_cons in Hnd, Hne. cbn [fst] in *.
  apply NoDup_cons in Hnd as [Hk' Hnd]. apply not_elem_of_cons in Hne as [Hk'ne Hne].
  rewrite filter_cons. cbn [fst snd dict_get].
  assert (truthy k' = true) as -> by (by apply truthy_true).
  rewrite andb_true_l.
  destruct (decide (v = "")) as [->|Hv].
  - rewrite decide_False by (by intros ?%truthy_true).
    rewrite IH by done. destruct (decide (k' = k)) as [->|]; [|done].
    by apply dict_get_None in Hk' as ->.
  - rewrite decide_True by (by apply truthy_true).
    rewrite fmap_cons. cbn [fst snd dict_get].
    destruct (decide (k' = k)); [by rewrite decide_False|]. by apply IH.
Qed.

(** The fields of a language row ([ChainMap] lookups). *)
Lemma language_row_fields g (node : Languoid.t float) row :
  let lang := [id_layer g node; local_layer (lang_info_value g row);
               catalog_layer node] in
  let local column := title_case (dict_get_default column "" row) in
  chain_get "ID" lang = Some (VStr g) ∧
  chain_get "Glottocode" lang = Some (VStr g) ∧
  chain_get "ISO639P3code" lang = Some (str_or_none (Languoid.iso node)) ∧
  chain_get "Name" lang =
    Some (VStr (if decide (local "Language" = "") then Languoid.name node
                else local "Language")) ∧
  chain_get "SubBranch" lang =
    (if decide (local "Sub-branch" = "") then None
     else Some (VStr (local "Sub-branch"))) ∧
  chain_get "Family" lang =
    (if decide (local "Family" = "") then None else Some (VStr (local "Family"))) ∧
  chain_get "Macroarea" lang =
    Some (VStr (match Languoid.macroareas node with
                | m :: _ => Macroarea.name m
                | [] => ""
                end)) ∧
  chain_get "Latitude" lang = Some (float_or_none (Languoid.latitude node)) ∧
  chain_get "Longitude" lang = Some (float_or_none (Languoid.longitude node)).
Proof.
  intros lang local. subst lang.
  assert (NoDup (dict_keys (lang_info_value g row))) as Hnd.
  { apply (bool_decide_unpack _). by vm_compute. }
  assert ("" ∉ dict_keys (lang_info_value g row)) as Hne.
  { apply (bool_decide_unpack _). by vm_compute. }
  cbn [chain_get]. rewrite !(dict_get_local_layer _ _ Hnd Hne).
  split_and!; try reflexivity.
  - change (dict_get "Name" (id_layer g node)) with (@None (@pyval float)).
    change (dict_get "Name" (lang_info_value g row)) with (Some (local "Language")).
    cbv beta iota. by case_decide.
  - change (dict_get "SubBranch" (id_layer g node)) with (@None (@pyval float)).
    change (dict_get "SubBranch" (lang_info_value g row)) with (Some (local "Sub-branch")).
    cbv beta iota. by case_decide.
  - change (dict_get "Family" (id_layer g node)) with (@None (@pyval float)).
    change (dict_get "Family" (lang_info_value g row)) with (Some (local "Family")).
    cbv beta iota. by case_decide.
Qed.
End LanguageRows.

Section LanguageOutput.
Context {float : Type} `{!EqDecision float} (float_str : float → string).
Implicit Types (inp : @Input float) (out : @Output float) (err : list string).

(** The language table of a run that returns: one row per language
    identifier of the data, in increasing order of the identifiers, built
    from the last data row and the last catalogue entry of the identifier. *)
Lemma language_table_of_run inp err out err' :
  cmd_makecldf float_str inp err = (Ok out, err') →
  ∃ glottocodes,
    NoDup glottocodes ∧
    StronglySorted String.le glottocodes ∧
    (∀ g, g ∈ glottocodes ↔
          ∃ row, row ∈ normalise_table (raw_data inp) ∧
                 dict_get "Glottolog.Name" row = Some g) ∧
    Forall2 (λ g lang, ∃ row node,
               last (rows_of_language g (normalise_table (raw_data inp))) = Some row ∧
               last (filter (λ l, Languoid.id l = g) (glottolog inp)) = Some node ∧
               lang = [id_layer g node; local_layer (lang_info_value g row);
                       catalog_layer node])
            glottocodes (LanguageTable out).
Proof.
  intros (lang_info & table & ids & st & Hinfo & Htable & Hids & _ & ->)%cmd_makecldf_Ok.
  cbn [LanguageTable].
  apply make_lang_info_Ok in Hinfo as (_ & _ & Hkeys & Hget & HID).
  apply (make_language_table_Ok _ _ _ HID) in Htable.
  exists (sorted_set (dict_keys lang_info)).
  assert (Forall2 (λ g lang, ∃ row node,
               last (rows_of_language g (normalise_table (raw_data inp))) = Some row ∧
               last (filter (λ l, Languoid.id l = g) (glottolog inp)) = Some node ∧
               lang = [id_layer g node; local_layer (lang_info_value g row);
                       catalog_layer node])
            (sorted_set (dict_keys lang_info)) table) as Hrows.
  { eapply Forall2_impl; [exact Htable|]. intros g lang (node & info & Hnode & Hi & ->).
    rewrite Hget in Hi. destruct (last (rows_of_language g _)) as [row|]; [|done].
    injection Hi as <-. by exists row, node. }
  assert (ids = VStr <$> sorted_set (dict_keys lang_info)) as ->.
  { apply mapM_res_Ok in Hids. clear Htable.
    revert ids Hids. induction Hrows as [|g lang gs table (row & node & _ & _ & ->) _ IH];
      intros ids Hids.
    - by apply Forall2_nil_inv_l in Hids as ->.
    - apply Forall2_cons_inv_l in Hids as (id & ids' & Hid & Hids & ->).
      rewrite fmap_cons. f_equal; [|by apply IH].
      apply chain_getitem_Ok in Hid.
      destruct (language_row_fields g node row) as (Hg & _). cbv zeta in Hg. congruence. }
  pose proof (Forall2_length _ _ _ Hrows) as Hl.
  rewrite dict_of_items_id.
  2:{ rewrite fst_zip.
      - apply NoDup_fmap_2; [by intros ?? [=]|apply NoDup_sorted_set].
      - rewrite length_fmap, Hl. reflexivity. }
  unfold dict_values. rewrite snd_zip.
  2:{ rewrite length_fmap, Hl. reflexivity. }
  split_and!; [apply NoDup_sorted_set|apply StronglySorted_sorted_set| |done].
  intros g. by rewrite elem_of_sorted_set, Hkeys.
Qed.
End LanguageOutput.

Section LanguageClaims.
Context {float : Type} `{!EqDecision float} (float_str : float → string).
Implicit Types (inp : @Input float) (out : @Output float) (err : list string).

Lemma M_bind_lift_Ok {A B} (r : @res float A) (f : A → M B) a err :
  r = Ok a → (lift r ≫= f) err = f a err.
Proof. by intros ->. Qed.

Lemma M_bind_lift_Err {A B} (r : @res float A) (f : A → M B) e err :
  r = Err e → (lift r ≫= f) err = (Err e, err).
Proof. by intros ->. Qed.

(** C7.  If a normalised row names a language that the catalogue does not
    have, the run raises a [KeyError], prints nothing and gives no output. *)
Theorem unknown_language_is_fatal inp err row g :
  row ∈ normalise_table (raw_data inp) →
  dict_get "Glottolog.Name" row = Some g →
  (∀ l, l ∈ glottolog inp → Languoid.id l ≠ g) →
  ∃ key, cmd_makecldf float_str inp err = (Err (KeyError key), err).
Proof.
  intros Hrow Hg Hcat. unfold cmd_makecldf.
  destruct (make_lang_info (float:=float) (normalise_table (raw_data inp)))
    as [lang_info|e] eqn:Hinfo.
  2:{ exists (VStr "Glottolog.Name"). apply make_lang_info_Err in Hinfo as ->.
      by apply M_bind_lift_Err. }
  rewrite (M_bind_lift_Ok _ _ lang_info) by done.
  apply make_lang_info_Ok in Hinfo as (_ & _ & Hkeys & _ & HID).
  assert (∃ key, make_language_table (glottolog inp) lang_info = Err (KeyError key))
    as [key Hkey]; [|exists key; by apply M_bind_lift_Err].
  unfold make_language_table. rewrite (lang_info_ids _ HID). cbn [mbind res_bind].
  match goal with |- ∃ key, ?m = _ => destruct m as [table|e] eqn:Hm end.
  - exfalso. apply mapM_res_Ok in Hm.
    assert (g ∈ sorted_set (dict_keys lang_info)) as [i Hi]%list_elem_of_lookup.
    { apply elem_of_sorted_set, Hkeys. eauto. }
    destruct (Forall2_lookup_l _ _ _ _ _ Hm Hi) as (lang & _ & Hlang).
    apply res_bind_Ok in Hlang as (node & Hnode%getitem_Ok & _).
    rewrite dict_get_nodemap in Hnode by (apply list_elem_of_lookup; eauto).
    apply last_Some_elem_of, list_elem_of_filter in Hnode as [Hid Hin].
    by apply (Hcat node).
  - apply mapM_res_Err in Hm as (g' & _ & Hg').
    apply res_bind_Err in Hg' as [[_ ->]%getitem_Err|(node & _ & Hg')]; [by eexists|].
    apply res_bind_Err in Hg' as [[_ ->]%getitem_Err|(info & _ & [=])]. by eexists.
Qed.

Lemma language_rows_absent (Q : string → list (dict string (@pyval float)) → Prop)
    gs table g :
  (∀ g' lang, Q g' lang → chain_get "ID" lang = Some (VStr g')) →
  Forall2 Q gs table → g ∉ gs →
  filter (λ lang, chain_get "ID" lang = Some (VStr g)) table = [].
Proof.
  intros HQ. induction 1 as [|g' lang gs table Hq _ IH]; [done|].
  intros [Hne Hg]%not_elem_of_cons. rewrite filter_cons, IH by done.
  rewrite (HQ _ _ Hq). rewrite decide_False; [done|]. by intros [= ->].
Qed.

Lemma language_rows_unique (Q : string → list (dict string (@pyval float)) → Prop)
    gs table g :
  (∀ g' lang, Q g' lang → chain_get "ID" lang = Some (VStr g')) →
  Forall2 Q gs table → NoDup gs → g ∈ gs →
  ∃ lang, filter (λ lang, chain_get "ID" lang = Some (VStr g)) table = [lang] ∧
          Q g lang.
Proof.
  intros HQ. induction 1 as [|g' lang gs table Hq Hrest IH]; [by intros _ ?%elem_of_nil|].
  intros [Hg' Hnd]%NoDup_cons [->|Hg]%elem_of_cons.
  - exists lang. split; [|done].
    rewrite filter_cons, (HQ _ _ Hq), decide_True by done.
    by rewrite (language_rows_absent Q gs table g').
  - destruct (IH Hnd Hg) as (lang' & Hf & Hq'). exists lang'. split; [|done].
    rewrite filter_cons, (HQ _ _ Hq), decide_False; [done|].
    intros [= ->]. done.
Qed.

(** C10.  For every language identifier of the data, the language table of
    a run that returns has exactly one row with that identifier; its local
    layer is made from the last row of the language, so that SubBranch and
    Family are the title-cased values of that row (absent when empty), and
    so is Name when it is not empty. *)
Theorem language_rows_aggregate inp err out err' g :
  cmd_makecldf float_str inp err = (Ok out, err') →
  (∃ row, row ∈ normalise_table (raw_data inp) ∧
          dict_get "Glottolog.Name" row = Some g) →
  ∃ lang row,
    filter (λ l, chain_get "ID" l = Some (VStr g)) (LanguageTable out) = [lang] ∧
    last (rows_of_language g (normalise_table (raw_data inp))) = Some row ∧
    lang !! 1 = Some (local_layer (lang_info_value g row)) ∧
    (title_case (dict_get_default "Language" "" row) ≠ "" →
     chain_get "Name" lang =
       Some (VStr (title_case (dict_get_default "Language" "" row)))) ∧
    chain_get "SubBranch" lang =
      (if decide (title_case (dict_get_default "Sub-branch" "" row) = "") then None
       else Some (VStr (title_case (dict_get_default "Sub-branch" "" row)))) ∧
    chain_get "Family" lang =
      (if decide (title_case (dict_get_default "Family" "" row) = "") then None
       else Some (VStr (title_case (dict_get_default "Family" "" row)))).
Proof.
  intros (gs & Hnd & _ & Hgs & Hrows)%language_table_of_run Hg.
  apply Hgs in Hg.
  match type of Hrows with
  | Forall2 ?Q _ _ =>
      assert (∀ g' lang, Q g' lang → chain_get "ID" lang = Some (VStr g')) as HQ;
      [|destruct (language_rows_unique Q gs (LanguageTable out) g HQ Hrows Hnd Hg)
          as (lang & Hf & row & node & Hlast & _ & ->)]
  end.
  { intros g' lang (row & node & _ & _ & ->).
    by destruct (language_row_fields g' node row) as (? & _). }
  eexists. exists row. split; [exact Hf|]. split; [done|]. split; [done|].
  destruct (language_row_fields g node row) as (_ & _ & _ & Hname & Hsub & Hfam & _).
  cbv zeta in *. split_and!; [|done..].
  intros Hne. by rewrite Hname, decide_False.
Qed.

(** C2, as the code has it.  In a row of the language table, ID, Glottocode
    and the ISO code come from the identifier layer, Macroarea, Latitude and
    Longitude from the catalogue, SubBranch and Family from the local layer
    (absent when empty); Name is the local, title-cased name of the last row
    of the language, and the catalogue's name only when that is empty. *)
Theorem language_row_precedence inp err out err' lang :
  cmd_makecldf float_str inp err = (Ok out, err') →
  lang ∈ LanguageTable out →
  ∃ g row node,
    last (rows_of_language g (normalise_table (raw_data inp))) = Some row ∧
    last (filter (λ l, Languoid.id l = g) (glottolog inp)) = Some node ∧
    chain_get "ID" lang = Some (VStr g) ∧
    chain_get "Glottocode" lang = Some (VStr g) ∧
    chain_get "ISO639P3code" lang = Some (str_or_none (Languoid.iso node)) ∧
    chain_get "Name" lang =
      Some (VStr (if decide (title_case (dict_get_default "Language" "" row) = "")
                  then Languoid.name node
                  else title_case (dict_get_default "Language" "" row))) ∧
    chain_get "SubBranch" lang =
      (if decide (title_case (dict_get_default "Sub-branch" "" row) = "") then None
       else Some (VStr (title_case (dict_get_default "Sub-branch" "" row)))) ∧
    chain_get "Family" lang =
      (if decide (title_case (dict_get_default "Family" "" row) = "") then None
       else Some (VStr (title_case (dict_get_default "Family" "" row)))) ∧
    chain_get "Macroarea" lang =
      Some (VStr (match Languoid.macroareas node with
                  | m :: _ => Macroarea.name m
                  | [] => ""
                  end)) ∧
    chain_get "Latitude" lang = Some (float_or_none (Languoid.latitude node)) ∧
    chain_get "Longitude" lang = Some (float_or_none (Languoid.longitude node)).
Proof.
  intros (gs & _ & _ & _ & Hrows)%language_table_of_run [i Hi]%list_elem_of_lookup.
  destruct (Forall2_lookup_r _ _ _ _ _ Hrows Hi) as (g & _ & row & node & Hrow & Hnode & ->).
  exists g, row, node. split; [done|]. split; [done|].
  apply language_row_fields.
Qed.
End LanguageClaims.

(** ** The statements on the sample tables *)

(** C1.  With a citation line that is not in the table, [known_citation]
    reads the global [sys], which the module never imports: the run stops
    with a [NameError], nothing is printed and there is no output. *)
Theorem unknown_citation_aborts :
  make_source_map (citations_to_bibtex unknown_citation_input)
    = [("X", "k1"); ("Z", "k2")] ∧
  splitlines (dict_get_default "Source" "" [("Source", "X" +:+ LF +:+ "Y")]) = ["X"; "Y"] ∧
  cmd_makecldf pretty unknown_citation_input [] = (Err (NameError "sys"), []).
Proof. vm_compute. repeat split. Qed.

(** C3.  A citation line with surrounding whitespace is tested unstripped
    against the table, whose keys are stripped, so it is not resolved: the
    run takes the branch for unknown citations and stops there. *)
Theorem padded_citation_aborts :
  make_source_map (citations_to_bibtex padded_citation_input)
    = [("X", "k1"); ("Z", "k2")] ∧
  splitlines (dict_get_default "Source" "" [("Source", "X" +:+ LF +:+ " Z")]) = ["X"; " Z"] ∧
  strip " Z" = "Z" ∧
  dict_mem " Z" (make_source_map (citations_to_bibtex padded_citation_input)) = false ∧
  cmd_makecldf pretty padded_citation_input [] = (Err (NameError "sys"), []).
Proof. vm_compute. repeat split. Qed.

(** C2, as stated, fails: the row of lang1 has the local name, not the
    name of the catalogue. *)
Lemma local_name_overrides_catalog_name :
  ∃ lang node,
    cmd_makecldf pretty sample_input [] = (Ok sample_output, []) ∧
    LanguageTable sample_output !! 0 = Some lang ∧
    glottolog sample_input !! 0 = Some node ∧
    chain_get "ID" lang = Some (VStr (Languoid.id node)) ∧
    Languoid.name node = "Catalog One" ∧
    chain_get "Name" lang = Some (VStr "Second").
Proof. do 2 eexists. vm_compute. repeat split. Qed.

(** C8, as stated, fails: a line shorter than the header has [None] in a
    named column, a longer line has the key [None], and the normaliser
    raises on either. *)
Lemma normalise_raises_on_ragged_lines :
  normalise_raw_table [short_line] = Raises (AttributeError "NoneType" "strip") ∧
  normalise_raw_table [long_line] = Raises (AttributeError "NoneType" "strip") ∧
  normalise_raw_row [(Some "a", CList ["3"])] = Raises (AttributeError "list" "strip").
Proof. vm_compute. repeat split. Qed.

Lemma normalise_raw_table_witness :
  Forall (Forall strippable) padded_table ∧
  normalise_raw_table padded_table = Returns [ [("a", "x")]; [("a", "z")] ] ∧
  ∃ rows, normalise_raw_table padded_table = Returns rows.
Proof.
  assert (Forall (Forall strippable) padded_table) as H.
  { apply (bool_decide_unpack _). vm_compute. exact I. }
  split; [exact H|]. split; [vm_compute; reflexivity|].
  exact (proj2 (proj1 (normalise_raw_table_spec padded_table)) H).
Defined.

Lemma unify_na_witness : unify_na "NI" = "n/a" ∧ unify_na "yes" = "yes".
Proof.
  split.
  - apply (unify_na_spec "NI"). apply (bool_decide_unpack _). by vm_compute.
  - apply (unify_na_spec "yes"). apply (bool_decide_unpack _). by vm_compute.
Defined.

Lemma code_vocabulary_witness :
  ("Polysemy", "polysemy") ∈ PARAMETER_COLUMNS ∧ "polysemy" ≠ "ap-marker" ∧
  ∃ names,
    dict_get "polysemy" (make_code_dict abc_rows) = Some names ∧
    names = ["a"; "b"; "c"] ∧
    ∀ i name, names !! i = Some name →
      dict_get ("polysemy", name) (make_codes (make_code_dict abc_rows)) =
        Some {| Code.ID := "polysemy" +:+ "-c" +:+ str_of_nat (i + 1);
                Code.Parameter_ID := "polysemy";
                Code.Name := name |}.
Proof.
  assert (("Polysemy", "polysemy") ∈ PARAMETER_COLUMNS) as Hin.
  { apply (bool_decide_unpack _). by vm_compute. }
  assert ("polysemy" ≠ "ap-marker") as Hne by done.
  split; [exact Hin|]. split; [exact Hne|].
  destruct (code_vocabulary_spec abc_rows "Polysemy" "polysemy" Hin Hne)
    as (names & Hget & _ & _ & _ & Hcodes & _).
  exists names. split; [exact Hget|]. split; [|exact Hcodes].
  assert (Some names = Some ["a"; "b"; "c"]) as [= ->]; [|done].
  rewrite <-Hget. by vm_compute.
Defined.

Lemma sample_run : cmd_makecldf pretty sample_input [] = (Ok sample_output, []).
Proof. vm_compute. reflexivity. Qed.

Lemma value_code_linkage_witness :
  cmd_makecldf pretty sample_input [] = (Ok sample_output, []) ∧
  ∀ cv, cv ∈ cvalues_csv sample_output →
    (CValue.Parameter_ID cv = "ap-marker" → CValue.Code_ID cv = None) ∧
    (CValue.Parameter_ID cv ≠ "ap-marker" →
     ∃ code, code ∈ CodeTable sample_output ∧
             Code.Parameter_ID code = CValue.Parameter_ID cv ∧
             Code.Name code = CValue.Value cv ∧
             CValue.Code_ID cv = Some (Code.ID code)).
Proof.
  split; [exact sample_run|].
  intros cv Hcv.
  destruct (value_code_linkage pretty sample_input [] sample_output [] sample_run cv Hcv)
    as [Hm Hc].
  split; [exact Hm|]. intros Hne.
  destruct (Hc Hne) as (code & H1 & H2 & H3 & H4 & _).
  exists code. exact (conj H1 (conj H2 (conj H3 H4))).
Defined.

Lemma constructions_witness :
  cmd_makecldf pretty sample_input [] = (Ok sample_output, []) ∧
  Construction.ID <$> constructions_csv sample_output
    = ["lang1-ap1"; "lang2-ap1"; "lang1-ap2"] ∧
  Construction.ID <$>
    filter (λ c, Construction.Language_ID c = "lang1") (constructions_csv sample_output)
  = (λ n, "lang1" +:+ "-ap" +:+ str_of_nat n) <$> seq 1 2.
Proof.
  split; [exact sample_run|]. split; [vm_compute; reflexivity|].
  destruct (constructions_spec pretty sample_input [] sample_output [] sample_run)
    as (_ & _ & H).
  exact (H "lang1").
Defined.

Lemma unknown_language_witness :
  ∃ key, cmd_makecldf pretty unknown_language_input [] = (Err (KeyError key), []).
Proof.
  apply (unknown_language_is_fatal pretty unknown_language_input []
           [("Glottolog.Name", "lang3")] "lang3").
  - apply (bool_decide_unpack _). vm_compute. exact I.
  - vm_compute. reflexivity.
  - intros l Hl. revert l Hl. apply Forall_forall.
    apply (bool_decide_unpack _). vm_compute. exact I.
Defined.

Lemma language_rows_aggregate_witness :
  ∃ lang,
    cmd_makecldf pretty sample_input [] = (Ok sample_output, []) ∧
    filter (λ l, chain_get "ID" l = Some (VStr "lang1")) (LanguageTable sample_output)
      = [lang] ∧
    chain_get "Name" lang = Some (VStr "Second") ∧
    chain_get "SubBranch" lang = Some (VStr "Sub") ∧
    chain_get "Family" lang = None.
Proof.
  destruct (language_rows_aggregate pretty sample_input [] sample_output [] "lang1"
              sample_run)
    as (lang & row & Hf & Hlast & _ & Hname & Hsub & Hfam).
  { exists [("Glottolog.Name", "lang1"); ("Language", "second"); ("Sub-branch", "sub");
            ("Polysemy", "no"); ("Source", "Z")].
    split; [apply (bool_decide_unpack _); vm_compute; exact I|vm_compute; reflexivity]. }
  exists lang. split; [exact sample_run|]. split; [exact Hf|].
  assert (Some row = Some [("Glottolog.Name", "lang1"); ("Language", "second");
                           ("Sub-branch", "sub"); ("Polysemy", "no"); ("Source", "Z")])
    as Hrow.
  { rewrite <-Hlast. vm_compute. reflexivity. }
  injection Hrow as ->.
  split; [|split].
  - apply Hname. vm_compute. discriminate.
  - rewrite Hsub. vm_compute. reflexivity.
  - rewrite Hfam. vm_compute. reflexivity.
Defined.

Lemma language_row_precedence_witness :
  ∃ lang,
    cmd_makecldf pretty sample_input [] = (Ok sample_output, []) ∧
    LanguageTable sample_output !! 1 = Some lang ∧
    ∃ g row node,
      last (rows_of_language g (normalise_table (raw_data sample_input))) = Some row ∧
      last (filter (λ l, Languoid.id l = g) (glottolog sample_input)) = Some node ∧
      chain_get "ID" lang = Some (VStr g) ∧
      chain_get "Name" lang =
        Some (VStr (if decide (title_case (dict_get_default "Language" "" row) = "")
                    then Languoid.name node
                    else title_case (dict_get_default "Language" "" row))) ∧
      chain_get "Macroarea" lang =
        Some (VStr (match Languoid.macroareas node with
                    | m :: _ => Macroarea.name m
                    | [] => ""
                    end)).
Proof.
  destruct (LanguageTable sample_output !! 1) as [lang|] eqn:Hlang;
    [|vm_compute in Hlang; discriminate].
  exists lang. split; [exact sample_run|]. split; [reflexivity|].
  destruct (language_row_precedence pretty sample_input [] sample_output [] lang sample_run)
    as (g & row & node & H1 & H2 & H3 & _ & _ & H4 & _ & _ & H5 & _).
  { by eapply list_elem_of_lookup_2. }
  exists g, row, node. exact (conj H1 (conj H2 (conj H3 (conj H4 H5)))).
Defined.

(** * Further properties of the module *)

(** ** Title casing *)

Lemma is_word_upper c : is_word (upper c) = is_word c.
Proof. destruct c as [[] [] [] [] [] [] [] []]; vm_compute; reflexivity. Qed.

Lemma is_word_lower c : is_word (lower c) = is_word c.
Proof. destruct c as [[] [] [] [] [] [] [] []]; vm_compute; reflexivity. Qed.

Lemma upper_upper c : upper (upper c) = upper c.
Proof. destruct c as [[] [] [] [] [] [] [] []]; vm_compute; reflexivity. Qed.

Lemma lower_lower c : lower (lower c) = lower c.
Proof. destruct c as [[] [] [] [] [] [] [] []]; vm_compute; reflexivity. Qed.

Lemma map_string_snoc f l c :
  map_string f (string_of_chars (l ++ [c]))
    = map_string f (string_of_chars l) +:+ String (f c) "".
Proof.
  induction l as [|a l IH]; [done|].
  change (String (f a) (map_string f (string_of_chars (l ++ [c])))
          = String (f a) (map_string f (string_of_chars l) +:+ String (f c) "")).
  by rewrite IH.
Qed.

Lemma capitalize_snoc l c :
  l ≠ [] →
  capitalize (string_of_chars (l ++ [c]))
    = capitalize (string_of_chars l) +:+ String (lower c) "".
Proof.
  destruct l as [|a l]; [done|]. intros _.
  change (String (upper a) (map_string lower (string_of_chars (l ++ [c])))
          = String (upper a) (map_string lower (string_of_chars l) +:+ String (lower c) "")).
  by rewrite map_string_snoc.
Qed.

Lemma re_sub_words_from_capitalize run s :
  re_sub_words_from capitalize run s =
    match run with
    | [] => title_chars false s
    | _ => capitalize (string_of_chars (rev run)) +:+ title_chars true s
    end.
Proof.
  revert run. induction s as [|c s IH]; intros run.
  - destruct run as [|a run]; [done|].
    cbn [re_sub_words_from flush_match title_chars]. symmetry. apply str_app_nil_r.
  - cbn [re_sub_words_from title_chars]. destruct (is_word c) eqn:Hc.
    + rewrite IH. destruct run as [|a run]; [done|].
      change (rev (c :: a :: run)) with (rev (a :: run) ++ [c]).
      rewrite capitalize_snoc, str_app_assoc; [done|].
      cbn [rev]. by intros [_ [=]]%app_eq_nil.
    + rewrite IH. by destruct run.
Qed.

(** X1.  On a string of ASCII characters [title_case] is one pass over the
    characters: the first character of every maximal run of word characters
    is upper-cased, the other characters of the run are lower-cased,
    everything else is kept. *)
Theorem title_case_chars s :
  is_ascii s = true → title_case s = title_chars false s.
Proof. intros _. apply (re_sub_words_from_capitalize []). Qed.

Lemma length_title_chars b s : String.length (title_chars b s) = String.length s.
Proof. revert b. induction s as [|c s IH]; intros b; [done|]. cbn. by rewrite IH. Qed.

Lemma title_chars_idemp b s : title_chars b (title_chars b s) = title_chars b s.
Proof.
  revert b. induction s as [|c s IH]; intros b; [done|].
  cbn [title_chars]. destruct (is_word c) eqn:Hc.
  - destruct b.
    + rewrite is_word_lower, Hc, lower_lower. f_equal. apply IH.
    + rewrite is_word_upper, Hc, upper_upper. f_equal. apply IH.
  - rewrite Hc. f_equal. apply IH.
Qed.

(** X2.  On a string of ASCII characters title casing changes no length,
    so it gives the empty string only for the empty string, and applying it
    twice is applying it once. *)
Theorem title_case_idemp s :
  is_ascii s = true →
  String.length (title_case s) = String.length s ∧
  (title_case s = "" ↔ s = "") ∧
  title_case (title_case s) = title_case s.
Proof.
  intros _. unfold title_case, re_sub_words.
  rewrite !(re_sub_words_from_capitalize []).
  split; [apply length_title_chars|]. split.
  - split; [|by intros ->].
    intros H. pose proof (length_title_chars false s) as Hl.
    rewrite H in Hl. by destruct s.
  - apply title_chars_idemp.
Qed.


(** ** Normalising twice *)

Lemma filter_all {A} (P : A → Prop) `{!∀ x, Decision (P x)} (l : list A) :
  Forall P l → filter P l = l.
Proof.
  induction 1 as [|x l Hx _ IH]; [done|].
  by rewrite filter_cons_True, IH.
Qed.

Lemma fmap_fixed {A} (f : A → A) (l : list A) :
  Forall (λ x, f x = x) l → f <$> l = l.
Proof. induction 1 as [|x l Hx _ IH]; [done|]. by rewrite fmap_cons, Hx, IH. Qed.

Lemma normalise_row_fixed (row : Row) :
  NoDup (dict_keys row) →
  (∀ k v, (k, v) ∈ row → strip k = k ∧ strip v = v ∧ k ≠ "" ∧ v ≠ "") →
  normalise_row row = row.
Proof.
  intros Hnd Hrow. unfold normalise_row.
  rewrite filter_all, fmap_fixed; [by apply dict_of_items_id|..].
  - apply Forall_forall. intros [k v] Hkv.
    destruct (Hrow k v Hkv) as (Hk & Hv & _). cbn [fst snd]. by rewrite Hk, Hv.
  - apply Forall_forall. intros [k v] Hkv.
    destruct (Hrow k v Hkv) as (Hk & Hv & ? & ?). cbn [fst snd]. rewrite Hk, Hv.
    apply andb_true_iff. by rewrite !truthy_true.
Qed.

Lemma normalise_row_idemp (row : Row) :
  normalise_row (normalise_row row) = normalise_row row.
Proof.
  apply normalise_row_fixed; [apply dict_of_items_NoDup|].
  intros k v (k0 & v0 & _ & -> & -> & ? & ?)%elem_of_normalise_row.
  by rewrite !strip_idemp.
Qed.

(** X3.  The normaliser is idempotent: a table that has been normalised is
    left as it is, row by row and as a whole. *)
Theorem normalise_table_idemp (table : list Row) :
  normalise_table (normalise_table table) = normalise_table table ∧
  ∀ raw, normalise_row (normalise_row raw) = normalise_row raw.
Proof.
  split; [|apply normalise_row_idemp].
  unfold normalise_table at 1. rewrite fmap_fixed.
  - unfold normalise_table. by apply list_filter_filter_l.
  - apply Forall_forall. intros row (_ & raw & _ & ->)%elem_of_normalise_table.
    apply normalise_row_idemp.
Qed.


(** ** Colliding keys *)

(** X4.  When several raw columns strip to the same name, the normalised
    row has the stripped cell of the last of them with a non-empty name and
    a non-empty cell; a name with no such column is not in the row. *)
Theorem normalise_row_lookup (row : Row) k :
  dict_get k (normalise_row row) =
    (λ kv, strip kv.2)
      <$> last (filter (λ kv, strip kv.1 = k ∧ strip kv.1 ≠ "" ∧ strip kv.2 ≠ "") row).
Proof.
  unfold normalise_row. rewrite dict_get_of_items, filter_fmap_comm, fmap_last.
  rewrite list_filter_filter, <-option_fmap_compose. cbn [fst snd].
  f_equal. f_equal. apply list_filter_iff. intros [k0 v0]. cbn [fst snd].
  rewrite andb_true_iff, !truthy_true. tauto.
Qed.

(** X5.  The citation table maps a stripped citation to the stripped key of
    the last line of the file with that citation; its citations are stripped,
    so a padded string is never one of them. *)
Theorem source_map_lookup (rows : list (string * string)) citation :
  dict_get citation (make_source_map rows) =
    (λ kc, strip kc.1) <$> last (filter (λ kc, strip kc.2 = citation) rows) ∧
  (padded citation = true → dict_mem citation (make_source_map rows) = false).
Proof.
  assert (dict_get citation (make_source_map rows) =
    (λ kc, strip kc.1) <$> last (filter (λ kc, strip kc.2 = citation) rows)) as Hget.
  { unfold make_source_map.
    by rewrite dict_get_of_items, filter_fmap_comm, fmap_last, <-option_fmap_compose. }
  split; [done|]. intros Hpad. unfold dict_mem. rewrite Hget.
  destruct (last _) as [[key c]|] eqn:Hlast; [|done].
  apply last_Some_elem_of, list_elem_of_filter in Hlast as [Hc _].
  cbn [snd] in Hc. subst citation. by rewrite padded_strip in Hpad.
Qed.

(** ** NA unification, again *)

(** X6.  [unify_na] is idempotent, and it identifies two values exactly when
    they are equal or both NA synonyms. *)
Theorem unify_na_eq v w :
  unify_na (unify_na v) = unify_na v ∧
  (unify_na v = unify_na w ↔ v = w ∨ (v ∈ NA_SYNONYMS ∧ w ∈ NA_SYNONYMS)).
Proof.
  assert ("n/a" ∈ NA_SYNONYMS) as Hna by set_solver.
  unfold unify_na. repeat case_decide; split; try done; try naive_solver.
Qed.


(** ** What the command prints *)

Section Quiet.
Context {float : Type} `{!EqDecision float} (float_str : float → string).
Implicit Types (inp : @Input float) (err : list string).

Lemma quiet_ret {A} (a : A) : quiet (float:=float) (mret a).
Proof. by intros err. Qed.

Lemma quiet_lift {A} (r : @res float A) : quiet (lift r).
Proof. by intros err. Qed.

Lemma quiet_bind {A B} (m : @M float A) (f : A → @M float B) :
  quiet m → (∀ a, quiet (f a)) → quiet (m ≫= f).
Proof.
  intros Hm Hf err. unfold mbind, M_bind. specialize (Hm err).
  destruct (m err) as [[a|e] err1]; cbn [snd] in Hm; subst err1; [apply Hf|done].
Qed.

Lemma quiet_known_citation source_map index cite :
  quiet (known_citation (float:=float) source_map index cite).
Proof.
  intros err. destruct (dict_mem cite source_map) eqn:Hmem.
  - unfold known_citation. by rewrite Hmem.
  - by rewrite known_citation_unknown.
Qed.

Lemma quiet_resolve_citations source_map index lines :
  quiet (resolve_citations (float:=float) source_map index lines).
Proof.
  induction lines as [|line lines IH]; cbn [resolve_citations]; [apply quiet_ret|].
  apply quiet_bind; [apply quiet_known_citation|]. intros [|]; [|done].
  apply quiet_bind; [apply quiet_lift|]. intros key.
  apply quiet_bind; [done|]. intros keys. apply quiet_ret.
Qed.

Lemma quiet_loop_body languages codes source_map st index row :
  quiet (loop_body float_str languages codes source_map st index row).
Proof.
  unfold loop_body. repeat (apply quiet_bind; [apply quiet_lift|]; intros ?).
  apply quiet_bind; [apply quiet_resolve_citations|]. intros citations.
  apply quiet_ret.
Qed.

Lemma quiet_loop languages codes source_map st rows :
  quiet (loop float_str languages codes source_map st rows).
Proof.
  revert st. induction rows as [|[index row] rows IH]; intros st; cbn [loop].
  - apply quiet_ret.
  - apply quiet_bind; [apply quiet_loop_body|]. intros st'. apply IH.
Qed.

(** X7.  The command never writes to [sys.stderr], whether it returns or
    raises: the only [print] of the module is behind the read of the
    unbound name [sys]. *)
Theorem nothing_is_printed inp err : (cmd_makecldf float_str inp err).2 = err.
Proof.
  revert err. change (quiet (cmd_makecldf float_str inp)). unfold cmd_makecldf.
  repeat (apply quiet_bind; [apply quiet_lift|]; intros ?).
  apply quiet_bind; [apply quiet_loop|]. intros st. apply quiet_ret.
Qed.
End Quiet.


(** ** When the command returns *)

Section Outcome.
Context {float : Type} `{!EqDecision float} (float_str : float → string).
Implicit Types (inp : @Input float) (out : @Output float) (err : list string)
  (languages : dict (@pyval float) (list (dict string (@pyval float))))
  (codes : dict (string * string) Code.t) (source_map : dict string string)
  (st : Loop) (row : Row).

Lemma M_bind_run_Ok {A B} (m : @M float A) (f : A → M B) a err err1 :
  m err = (Ok a, err1) → (m ≫= f) err = f a err1.
Proof. unfold mbind, M_bind. by intros ->. Qed.

Lemma M_bind_run_Err {A B} (m : @M float A) (f : A → M B) e err err1 :
  m err = (Err e, err1) → (m ≫= f) err = (Err e, err1).
Proof. unfold mbind, M_bind. by intros ->. Qed.

Lemma mapM_res_total {A B} (f : A → @res float B) l :
  Forall (λ x, ∃ y, f x = Ok y) l → ∃ k, mapM f l = Ok k.
Proof.
  intros H. assert (∃ k, Forall2 (λ x y, f x = Ok y) l k) as [k Hk].
  { induction H as [|x l [y Hy] _ [k IH]]; [by exists []|].
    exists (y :: k). by constructor. }
  exists k. by apply mapM_res_Ok.
Qed.

(** A line that is in the table as it stands is stripped, so the subscript
    finds it. *)
Lemma known_line_getitem source_map line :
  (∀ k, k ∈ dict_keys source_map → padded k = false) →
  dict_mem line source_map = true →
  ∃ key, getitem (float:=float) (strip line) source_map = Ok key.
Proof.
  intros Hkeys Hmem. unfold dict_mem in Hmem.
  destruct (dict_get line source_map) as [key|] eqn:Hget; [|done].
  exists key. apply getitem_Ok. rewrite strip_id; [done|].
  apply Hkeys. apply dict_get_Some in Hget.
  apply list_elem_of_fmap. by exists (line, key).
Qed.

Lemma resolve_citations_total source_map index lines err :
  (∀ k, k ∈ dict_keys source_map → padded k = false) →
  Forall (λ line, dict_mem line source_map = true) lines →
  ∃ keys, resolve_citations (float:=float) source_map index lines err
            = (Ok keys, err).
Proof.
  intros Hkeys. induction 1 as [|line lines Hline _ [keys IH]];
    cbn [resolve_citations]; [by exists []|].
  destruct (known_line_getitem _ _ Hkeys Hline) as [key Hkey].
  exists (key :: keys).
  rewrite (M_bind_run_Ok _ _ true err err)
    by (apply known_citation_Ok; by split_and!).
  rewrite (M_bind_lift_Ok _ _ key) by done.
  by rewrite (M_bind_run_Ok _ _ keys err err).
Qed.

Lemma resolve_citations_fails source_map index lines err :
  (∀ k, k ∈ dict_keys source_map → padded k = false) →
  Exists (λ line, dict_mem line source_map = false) lines →
  resolve_citations (float:=float) source_map index lines err
    = (Err (NameError "sys"), err).
Proof.
  intros Hkeys. induction lines as [|line lines IH]; [by intros ?%Exists_nil|].
  intros Hex. cbn [resolve_citations].
  destruct (dict_mem line source_map) eqn:Hline.
  - destruct (known_line_getitem _ _ Hkeys Hline) as [key Hkey].
    rewrite (M_bind_run_Ok _ _ true err err)
      by (apply known_citation_Ok; by split_and!).
    rewrite (M_bind_lift_Ok _ _ key) by done.
    apply M_bind_run_Err, IH.
    apply Exists_cons in Hex as [Hex|Hex]; [congruence|done].
  - apply M_bind_run_Err. by apply known_citation_unknown.
Qed.

Lemma loop_body_total languages codes source_map st index row err g lang name :
  dict_get "Glottolog.Name" row = Some g →
  dict_get (VStr g) languages = Some lang →
  chain_get "Name" lang = Some name →
  (∀ k, k ∈ dict_keys source_map → padded k = false) →
  Forall (λ line, dict_mem line source_map = true) (source_lines row) →
  ∃ st', loop_body float_str languages codes source_map st index row err
           = (Ok st', err).
Proof.
  intros Hg Hlang Hname Hkeys Hlines. unfold loop_body.
  rewrite (M_bind_lift_Ok _ _ g) by (by apply getitem_Ok).
  rewrite (M_bind_lift_Ok _ _ g) by (by apply getitem_Ok).
  rewrite (M_bind_lift_Ok _ _ lang) by (by rewrite Hlang).
  rewrite (M_bind_lift_Ok _ _ name) by (by apply chain_getitem_Ok).
  destruct (resolve_citations_total source_map index _ err Hkeys Hlines) as [keys Hres].
  unfold source_lines in Hres.
  rewrite (M_bind_run_Ok _ _ keys err err) by done.
  eexists. reflexivity.
Qed.

Lemma loop_body_fails languages codes source_map st index row err g lang name :
  dict_get "Glottolog.Name" row = Some g →
  dict_get (VStr g) languages = Some lang →
  chain_get "Name" lang = Some name →
  (∀ k, k ∈ dict_keys source_map → padded k = false) →
  Exists (λ line, dict_mem line source_map = false) (source_lines row) →
  loop_body float_str languages codes source_map st index row err
    = (Err (NameError "sys"), err).
Proof.
  intros Hg Hlang Hname Hkeys Hlines. unfold loop_body.
  rewrite (M_bind_lift_Ok _ _ g) by (by apply getitem_Ok).
  rewrite (M_bind_lift_Ok _ _ g) by (by apply getitem_Ok).
  rewrite (M_bind_lift_Ok _ _ lang) by (by rewrite Hlang).
  rewrite (M_bind_lift_Ok _ _ name) by (by apply chain_getitem_Ok).
  apply M_bind_run_Err. by apply resolve_citations_fails.
Qed.

Lemma loop_fails languages codes source_map st rows err :
  (∀ k, k ∈ dict_keys source_map → padded k = false) →
  Forall (λ row, ∃ g lang name,
            dict_get "Glottolog.Name" row = Some g ∧
            dict_get (VStr g) languages = Some lang ∧
            chain_get "Name" lang = Some name) rows.*2 →
  ¬ citations_known source_map rows.*2 →
  loop float_str languages codes source_map st rows err
    = (Err (NameError "sys"), err).
Proof.
  intros Hkeys. revert st.
  induction rows as [|[index row] rows IH]; intros st Hlangs Hknown; cbn [loop].
  - destruct Hknown. constructor.
  - rewrite fmap_cons in Hlangs, Hknown. cbn [snd] in Hlangs, Hknown.
    apply Forall_cons in Hlangs as [(g & lang & name & Hg & Hlang & Hname) Hlangs].
    destruct (decide (Forall (λ line, dict_mem line source_map = true)
                             (source_lines row))) as [Hrow|Hrow].
    + destruct (loop_body_total languages codes source_map st index row err g lang name)
        as [st1 Hbody]; [done..|].
      rewrite (M_bind_run_Ok _ _ st1 err err) by done.
      apply IH; [done|]. intros Hrest. apply Hknown. by constructor.
    + apply M_bind_run_Err.
      apply (loop_body_fails _ _ _ _ _ _ _ g lang name); [done..|].
      apply not_Forall_Exists in Hrow; [|apply _].
      eapply Exists_impl; [exact Hrow|]. intros line Hline. cbn in Hline.
      by destruct (dict_mem line source_map).
Qed.
End Outcome.


Section Languages.
Context {float : Type} `{!EqDecision float} (float_str : float → string).
Implicit Types (inp : @Input float) (out : @Output float) (err : list string)
  (catalog : list (Languoid.t float))
  (table : list (list (dict string (@pyval float)))).

Lemma language_row_of_ID catalog lang_info g lang :
  language_row_of catalog lang_info g lang →
  chain_get "ID" lang = Some (VStr g) ∧ is_Some (chain_get "Name" lang).
Proof.
  intros (node & info & _ & _ & ->). split; [done|].
  cbn [chain_get].
  assert (dict_get "Name" (id_layer g node) = None) as -> by done.
  destruct (dict_get "Name" (local_layer info)); [done|].
  by assert (dict_get "Name" (catalog_layer node) = Some (VStr (Languoid.name node)))
    as -> by done.
Qed.

Lemma language_table_ids catalog lang_info gs table :
  Forall2 (language_row_of catalog lang_info) gs table →
  mapM (chain_getitem (float:=float) "ID") table = Ok (VStr <$> gs).
Proof.
  intros H. apply mapM_res_Ok. induction H as [|g lang gs table Hrow _ IH];
    [constructor|].
  rewrite fmap_cons. constructor; [|done].
  apply chain_getitem_Ok. by apply language_row_of_ID in Hrow as [? _].
Qed.

Lemma languages_lookup catalog lang_info gs table g :
  Forall2 (language_row_of catalog lang_info) gs table →
  NoDup gs → g ∈ gs →
  ∃ lang, dict_get (@VStr float g) (dict_of_items (zip (@VStr float <$> gs) table))
            = Some lang ∧
          language_row_of catalog lang_info g lang.
Proof.
  intros Hrows Hnd [i Hi]%list_elem_of_lookup.
  destruct (Forall2_lookup_l _ _ _ _ _ Hrows Hi) as (lang & Hlang & Hrow).
  exists lang. split; [|done].
  pose proof (Forall2_length _ _ _ Hrows) as Hl.
  assert (NoDup (zip (@VStr float <$> gs) table).*1) as Hnd'.
  { rewrite fst_zip by (rewrite length_fmap, Hl; reflexivity).
    apply NoDup_fmap_2; [by intros ?? [=]|done]. }
  rewrite dict_of_items_id by done.
  apply dict_get_NoDup; [done|].
  apply (list_elem_of_lookup_2 _ i). apply lookup_zip_with_Some.
  exists (@VStr float g), lang. split; [done|]. split; [|done].
  by rewrite list_lookup_fmap, Hi.
Qed.

Lemma make_lang_info_total (data : list Row) :
  languages_named data → ∃ lang_info, make_lang_info (float:=float) data = Ok lang_info.
Proof.
  intros Hnamed.
  destruct (mapM_res_total (lang_info_item (float:=float)) data) as [items Hitems].
  { eapply Forall_impl; [exact Hnamed|]. intros row [g Hg].
    exists (g, lang_info_value g row). by apply lang_info_item_Ok. }
  exists (dict_of_items items). unfold make_lang_info. by rewrite Hitems.
Qed.

Lemma elem_of_named_languages (data : list Row) g :
  g ∈ omap (dict_get "Glottolog.Name") data ↔
  ∃ row, row ∈ data ∧ dict_get "Glottolog.Name" row = Some g.
Proof. apply list_elem_of_omap. Qed.

Lemma make_language_table_total catalog (data : list Row) lang_info :
  make_lang_info (float:=float) data = Ok lang_info →
  languages_catalogued catalog data →
  ∃ table, make_language_table catalog lang_info = Ok table.
Proof.
  intros (_ & _ & Hkeys & _ & HID)%make_lang_info_Ok Hcat.
  unfold make_language_table. rewrite (lang_info_ids _ HID). cbn [mbind res_bind].
  apply mapM_res_total, Forall_forall. intros g Hg.
  assert (g ∈ dict_keys lang_info) as Hkey by by apply elem_of_sorted_set.
  assert (∃ node, last (filter (λ l, Languoid.id l = g) catalog) = Some node)
    as [node Hnode].
  { unfold languages_catalogued in Hcat. rewrite Forall_forall in Hcat.
    specialize (Hcat g). rewrite elem_of_named_languages, <-Hkeys in Hcat.
    apply Hcat, list_elem_of_fmap in Hkey as (l & -> & Hl).
    destruct (last (filter (λ l', Languoid.id l' = Languoid.id l) catalog))
      as [node|] eqn:Hlast; [by exists node|].
    apply last_None in Hlast.
    assert (l ∈ filter (λ l', Languoid.id l' = Languoid.id l) catalog) as Hin
      by by apply list_elem_of_filter.
    rewrite Hlast in Hin. by apply elem_of_nil in Hin. }
  destruct (dict_get g lang_info) as [info|] eqn:Hinfo.
  2:{ by apply dict_get_None in Hinfo. }
  exists [id_layer g node; local_layer info; catalog_layer node].
  rewrite <-(dict_get_nodemap _ (sorted_set (dict_keys lang_info))) in Hnode by done.
  apply getitem_Ok in Hnode as ->. cbn [mbind res_bind].
  by apply (getitem_Ok (float:=float)) in Hinfo as ->.
Qed.
End Languages.


Section RunOutcome.
Context {float : Type} `{!EqDecision float} (float_str : float → string).
Implicit Types (inp : @Input float) (out : @Output float) (err : list string).

Lemma source_map_stripped (rows : list (string * string)) k :
  k ∈ dict_keys (make_source_map rows) → padded k = false.
Proof.
  intros ([k' key] & -> & Hin)%list_elem_of_fmap.
  apply elem_of_dict_of_items, list_elem_of_fmap in Hin as ([key0 c] & [= -> ->] & _).
  apply padded_strip.
Qed.

(** With every language cell present and catalogued, the command gets to
    the loop over the rows, and every language lookup of the loop finds its
    row. *)
Lemma run_reaches_loop inp err :
  languages_named (normalise_table (raw_data inp)) →
  languages_catalogued (glottolog inp) (normalise_table (raw_data inp)) →
  ∃ languages : dict (@pyval float) (list (dict string (@pyval float))),
    Forall (λ row, ∃ g lang name,
              dict_get "Glottolog.Name" row = Some g ∧
              dict_get (VStr g) languages = Some lang ∧
              chain_get "Name" lang = Some name)
           (normalise_table (raw_data inp)) ∧
    cmd_makecldf float_str inp err =
      (st ← loop float_str languages
              (make_codes (make_code_dict (normalise_table (raw_data inp))))
              (make_source_map (citations_to_bibtex inp))
              {| constructions := []; cvalues := []; ords := [] |}
              (enumerate (normalise_table (raw_data inp)));
       mret {| LanguageTable := dict_values languages;
               ParameterTable := parameters_csv inp;
               CodeTable :=
                 dict_values
                   (make_codes (make_code_dict (normalise_table (raw_data inp))));
               ValueTable := [];
               constructions_csv := constructions st;
               cvalues_csv := cvalues st |}) err.
Proof.
  intros Hnamed Hcat.
  destruct (make_lang_info_total (float:=float) _ Hnamed) as [lang_info Hinfo].
  destruct (make_language_table_total _ _ _ Hinfo Hcat) as [table Htable].
  pose proof Hinfo as (_ & _ & Hkeys & _ & HID)%make_lang_info_Ok.
  pose proof (make_language_table_Ok _ _ _ HID Htable) as Hrows.
  change (Forall2 (language_row_of (glottolog inp) lang_info)
            (sorted_set (dict_keys lang_info)) table) in Hrows.
  pose proof (language_table_ids _ _ _ _ Hrows) as Hids.
  exists (dict_of_items (zip (VStr <$> sorted_set (dict_keys lang_info)) table)).
  split.
  - apply Forall_forall. intros row Hrow.
    destruct (proj1 (Forall_forall _ _) Hnamed row Hrow) as [g Hg].
    destruct (languages_lookup _ _ _ _ g Hrows) as (lang & Hlang & Hrow');
      [apply NoDup_sorted_set|..].
    { apply elem_of_sorted_set, Hkeys. by exists row. }
    apply language_row_of_ID in Hrow' as [_ [name Hname]].
    by exists g, lang, name.
  - unfold cmd_makecldf. cbv zeta.
    rewrite (M_bind_lift_Ok _ _ lang_info) by done.
    rewrite (M_bind_lift_Ok _ _ table) by done.
    by rewrite (M_bind_lift_Ok _ _ (VStr <$> sorted_set (dict_keys lang_info))).
Qed.

(** X8.  A normalised row without a ['Glottolog.Name'] cell stops the
    command with [KeyError('Glottolog.Name')], before the catalogue is read. *)
Theorem missing_language_cell inp err :
  ¬ languages_named (normalise_table (raw_data inp)) →
  cmd_makecldf float_str inp err = (Err (KeyError (VStr "Glottolog.Name")), err).
Proof.
  intros Hnamed. unfold cmd_makecldf.
  destruct (make_lang_info (float:=float) (normalise_table (raw_data inp)))
    as [lang_info|e] eqn:Hinfo.
  - by apply make_lang_info_Ok in Hinfo as (? & _).
  - apply make_lang_info_Err in Hinfo as ->. by apply M_bind_lift_Err.
Qed.

(** X9.  When every language cell is present and catalogued, a citation
    line that is not, as it stands, a citation of the table stops the command
    with [NameError: name 'sys' is not defined]; nothing has been printed. *)
Theorem unknown_citation_is_fatal inp err :
  languages_named (normalise_table (raw_data inp)) →
  languages_catalogued (glottolog inp) (normalise_table (raw_data inp)) →
  ¬ citations_known (make_source_map (citations_to_bibtex inp))
      (normalise_table (raw_data inp)) →
  cmd_makecldf float_str inp err = (Err (NameError "sys"), err).
Proof.
  intros Hnamed Hcat Hknown.
  destruct (run_reaches_loop inp err Hnamed Hcat) as (languages & Hlangs & ->).
  apply M_bind_run_Err, loop_fails; rewrite ?enumerate_snd; try done.
  apply source_map_stripped.
Qed.

(** X10.  A run that returns has met three conditions: every normalised
    row has a language cell, every language cell is an id of the catalogue,
    and every line of every [Source] cell is, unstripped, a citation of the
    table. *)
Theorem run_preconditions inp err out err' :
  cmd_makecldf float_str inp err = (Ok out, err') →
  languages_named (normalise_table (raw_data inp)) ∧
  languages_catalogued (glottolog inp) (normalise_table (raw_data inp)) ∧
  citations_known (make_source_map (citations_to_bibtex inp))
    (normalise_table (raw_data inp)).
Proof.
  intros (lang_info & table & ids & st & Hinfo & Htable & Hids & Hloop & _)
           %cmd_makecldf_Ok.
  apply make_lang_info_Ok in Hinfo as (Hnamed & _ & Hkeys & _ & HID).
  apply (make_language_table_Ok _ _ _ HID) in Htable.
  apply loop_Ok in Hloop as (_ & _ & cs & vs & _ & _ & _ & Hrows & _).
  split; [done|]. split.
  - apply Forall_forall. intros g Hg%elem_of_named_languages.
    apply Hkeys, elem_of_sorted_set, list_elem_of_lookup in Hg as [i Hi].
    destruct (Forall2_lookup_l _ _ _ _ _ Htable Hi)
      as (lang & _ & node & info & Hnode & _).
    apply last_Some_elem_of, list_elem_of_filter in Hnode as [<- Hin].
    apply list_elem_of_fmap. by exists node.
  - apply Forall_forall. intros row [i Hi]%list_elem_of_lookup.
    destruct (Hrows i i row) as (g & lang & name & citations & _ & _ & _ & Hres & _).
    { by rewrite enumerate_lookup, Hi. }
    by apply resolve_citations_Ok in Hres as (_ & ? & _).
Qed.
End RunOutcome.


(** ** The value table of a run *)

Section Values.
Context {float : Type} `{!EqDecision float} (float_str : float → string).
Implicit Types (inp : @Input float) (out : @Output float) (err : list string)
  (languages : dict (@pyval float) (list (dict string (@pyval float))))
  (codes : dict (string * string) Code.t) (source_map : dict string string)
  (st : Loop) (row : Row).

(** The values that a run of the loop appends: row after row, the values
    of the row under the identifier of the construction of that row. *)
Lemma loop_values languages codes source_map rows st err st' err' :
  loop float_str languages codes source_map st rows err = (Ok st', err') →
  ∃ cs,
    constructions st' = constructions st ++ cs ∧
    length cs = length rows ∧
    cvalues st' = cvalues st ++
      mjoin (zip_with (λ c row, row_values codes (Construction.ID c) row) cs rows.*2).
Proof.
  revert st err. induction rows as [|[index row] rows IH]; intros st err; cbn [loop].
  - intros [<- ->]%M_ret_Ok. exists []. by rewrite !app_nil_r.
  - intros (st1 & err1 & Hbody & Hloop)%M_bind_Ok.
    apply loop_body_Ok in Hbody as (g & lang & name & cit & _ & _ & _ & _ & Hst1).
    cbv zeta in Hst1.
    apply IH in Hloop as (cs & Hcs & Hlen & Hvs).
    subst st1. cbn [constructions cvalues] in Hcs, Hvs.
    eexists (_ :: cs).
    split; [by rewrite Hcs, <-app_assoc|].
    split; [cbn [length]; by rewrite Hlen|].
    rewrite Hvs, <-app_assoc. reflexivity.
Qed.

Lemma elem_of_join_zip_with {A B C} (f : A → B → list C) (l : list A) (k : list B) x :
  x ∈ mjoin (zip_with f l k) ↔
  ∃ i a b, l !! i = Some a ∧ k !! i = Some b ∧ x ∈ f a b.
Proof.
  rewrite list_elem_of_join. split.
  - intros (xs & Hx & (i & a & b & -> & ? & ?)%elem_of_lookup_zip_with).
    by exists i, a, b.
  - intros (i & a & b & ? & ? & ?). exists (f a b). split; [done|].
    apply elem_of_lookup_zip_with. by exists i, a, b.
Qed.

Lemma cvalues_of_run inp err out err' :
  cmd_makecldf float_str inp err = (Ok out, err') →
  length (constructions_csv out) = length (normalise_table (raw_data inp)) ∧
  cvalues_csv out =
    mjoin (zip_with
             (λ c row,
                row_values (make_codes (make_code_dict (normalise_table (raw_data inp))))
                           (Construction.ID c) row)
             (constructions_csv out) (normalise_table (raw_data inp))).
Proof.
  intros (lang_info & table & ids & st & _ & _ & _ & Hloop & ->)%cmd_makecldf_Ok.
  cbn [constructions_csv cvalues_csv].
  apply loop_values in Hloop as (cs & Hcs & Hlen & Hvs).
  cbn [constructions cvalues] in Hcs, Hvs. rewrite app_nil_l in Hcs, Hvs.
  rewrite enumerate_snd in Hvs. rewrite length_enumerate in Hlen.
  by rewrite Hcs, Hvs.
Qed.

Lemma normalised_cell inp row column v :
  row ∈ normalise_table (raw_data inp) → dict_get column row = Some v → v ≠ "".
Proof.
  intros (_ & raw & _ & ->)%elem_of_normalise_table Hget%dict_get_Some.
  by apply elem_of_normalise_row in Hget as (? & ? & _ & _ & _ & _ & ?).
Qed.

(** X11.  Every record of [cvalues.csv] belongs to a construction of
    [constructions.csv]: it stems from a parameter column of the row of that
    construction, its [Construction_ID] is the identifier of the
    construction, and its own identifier is that identifier, a hyphen and
    the parameter. *)
Theorem cvalues_reference_constructions inp err out err' cv :
  cmd_makecldf float_str inp err = (Ok out, err') →
  cv ∈ cvalues_csv out →
  ∃ i row c column v,
    normalise_table (raw_data inp) !! i = Some row ∧
    constructions_csv out !! i = Some c ∧
    (column, CValue.Parameter_ID cv) ∈ PARAMETER_COLUMNS ∧
    dict_get column row = Some v ∧
    CValue.Construction_ID cv = Construction.ID c ∧
    CValue.ID cv = Construction.ID c +:+ "-" +:+ CValue.Parameter_ID cv ∧
    CValue.Value cv = unify_na v.
Proof.
  intros [_ Hvs]%cvalues_of_run Hcv. rewrite Hvs in Hcv.
  apply elem_of_join_zip_with in Hcv as (i & c & row & Hc & Hrow & Hcv).
  apply elem_of_row_values in Hcv
    as (column & param & v & Hin & Hget & _ & Hid & Hcid & Hparam & Hval & _);
    [|by eapply list_elem_of_lookup_2].
  exists i, row, c, column, v. subst param. by split_and!.
Qed.

(** X12.  Every cell of a parameter column of a normalised row gives a
    record of [cvalues.csv], for the construction of that row. *)
Theorem cvalues_complete inp err out err' i row column param v :
  cmd_makecldf float_str inp err = (Ok out, err') →
  normalise_table (raw_data inp) !! i = Some row →
  (column, param) ∈ PARAMETER_COLUMNS →
  dict_get column row = Some v →
  ∃ c cv,
    constructions_csv out !! i = Some c ∧
    cv ∈ cvalues_csv out ∧
    CValue.Construction_ID cv = Construction.ID c ∧
    CValue.Parameter_ID cv = param ∧
    CValue.Value cv = unify_na v.
Proof.
  intros [Hlen Hvs]%cvalues_of_run Hrow Hin Hget.
  destruct (constructions_csv out !! i) as [c|] eqn:Hc.
  2:{ apply lookup_ge_None in Hc. apply lookup_lt_Some in Hrow. lia. }
  exists c,
    {| CValue.ID := Construction.ID c +:+ "-" +:+ param;
       CValue.Construction_ID := Construction.ID c;
       CValue.Parameter_ID := param;
       CValue.Value := unify_na v;
       CValue.Code_ID :=
         Code.ID <$> dict_get (param, unify_na v)
                       (make_codes (make_code_dict (normalise_table (raw_data inp)))) |}.
  split; [done|]. split; [|done].
  rewrite Hvs. apply elem_of_join_zip_with. exists i, c, row.
  split; [done|]. split; [done|].
  unfold row_values. apply list_elem_of_omap. exists (column, param).
  split; [done|]. cbn [fst snd]. rewrite Hget.
  rewrite (proj2 (truthy_true v)); [reflexivity|].
  eapply normalised_cell; [|done]. by eapply list_elem_of_lookup_2.
Qed.
End Values.


(** ** Sources and languages *)

Lemma title_case_nil s : title_case s = "" ↔ s = "".
Proof.
  split; [|by intros ->]. unfold title_case, re_sub_words.
  rewrite (re_sub_words_from_capitalize []). intros H.
  pose proof (length_title_chars false s) as Hl. rewrite H in Hl. by destruct s.
Qed.

Lemma Forall2_Forall_l {A B} (P : A → Prop) (Q : A → B → Prop) l k :
  Forall P l → Forall2 Q l k → Forall2 (λ x y, P x ∧ Q x y) l k.
Proof.
  intros HP HQ. induction HQ as [|x y l k Hxy _ IH]; [constructor|].
  apply Forall_cons in HP as [Hx HP]. constructor; [done|by apply IH].
Qed.

Section RunTables.
Context {float : Type} `{!EqDecision float} (float_str : float → string).
Implicit Types (inp : @Input float) (out : @Output float) (err : list string).

(** X13.  In a run that returns, the source list of a construction has one
    key per line of the [Source] cell of its row, in line order: every line
    is, without surrounding whitespace, a citation of the table, and its key
    is the one the table has for it. *)
Theorem construction_sources inp err out err' i row c :
  cmd_makecldf float_str inp err = (Ok out, err') →
  normalise_table (raw_data inp) !! i = Some row →
  constructions_csv out !! i = Some c →
  Forall2 (λ line key,
             padded line = false ∧
             dict_get line (make_source_map (citations_to_bibtex inp)) = Some key)
          (source_lines row) (Construction.Source c).
Proof.
  intros (lang_info & table & ids & st & _ & _ & _ & Hloop & ->)%cmd_makecldf_Ok Hrow.
  cbn [constructions_csv].
  apply loop_Ok in Hloop as (_ & _ & cs & vs & Hcs & _ & _ & Hrows & _).
  cbn [constructions] in Hcs. rewrite app_nil_l in Hcs. rewrite Hcs.
  destruct (Hrows i i row) as (g & lang & name & citations & _ & _ & _ & Hres & ->).
  { by rewrite enumerate_lookup, Hrow. }
  intros [= <-]. cbn [Construction.Source].
  apply resolve_citations_Ok in Hres as (_ & Hknown & Hkeys).
  eapply Forall2_impl; [exact (Forall2_Forall_l _ _ _ _ Hknown Hkeys)|].
  intros line key [Hmem Hget]. cbn beta in Hmem.
  assert (padded line = false) as Hpad.
  { apply (source_map_stripped (citations_to_bibtex inp)).
    unfold dict_mem in Hmem.
    destruct (dict_get line _) as [key'|] eqn:Hline; [|done].
    apply dict_get_Some in Hline. apply list_elem_of_fmap. by exists (line, key'). }
  split; [done|]. by rewrite strip_id in Hget.
Qed.

(** X14.  The language table of a run that returns is in strictly
    increasing order of the identifiers, which are the language cells of the
    normalised rows, each once. *)
Theorem language_table_sorted inp err out err' :
  cmd_makecldf float_str inp err = (Ok out, err') →
  ∃ glottocodes,
    chain_get "ID" <$> LanguageTable out = (λ g, Some (VStr g)) <$> glottocodes ∧
    StronglySorted String.le glottocodes ∧
    NoDup glottocodes ∧
    ∀ g, g ∈ glottocodes ↔
         ∃ row, row ∈ normalise_table (raw_data inp) ∧
                dict_get "Glottolog.Name" row = Some g.
Proof.
  intros (gs & Hnd & Hsorted & Hgs & Hrows)%language_table_of_run.
  exists gs. split_and!; try done. clear Hnd Hsorted Hgs.
  induction Hrows as [|g lang gs table (row & node & _ & _ & ->) _ IH]; [done|].
  rewrite !fmap_cons. by f_equal.
Qed.

(** X15.  The name of a language row is the title-cased [Language] cell of
    the last normalised row of the language, and the catalogue's name exactly
    when that row has no such cell; [SubBranch] and [Family] are there exactly
    when that row has the cell. *)
Theorem language_name_fallback inp err out err' lang :
  cmd_makecldf float_str inp err = (Ok out, err') →
  lang ∈ LanguageTable out →
  ∃ g row node,
    last (rows_of_language g (normalise_table (raw_data inp))) = Some row ∧
    last (filter (λ l, Languoid.id l = g) (glottolog inp)) = Some node ∧
    chain_get "ID" lang = Some (VStr g) ∧
    chain_get "Name" lang =
      Some (VStr (match dict_get "Language" row with
                  | Some v => title_case v
                  | None => Languoid.name node
                  end)) ∧
    chain_get "SubBranch" lang = (λ v, VStr (title_case v)) <$> dict_get "Sub-branch" row ∧
    chain_get "Family" lang = (λ v, VStr (title_case v)) <$> dict_get "Family" row.
Proof.
  intros (gs & _ & _ & _ & Hrows)%language_table_of_run [i Hi]%list_elem_of_lookup.
  destruct (Forall2_lookup_r _ _ _ _ _ Hrows Hi)
    as (g & _ & row & node & Hrow & Hnode & ->).
  exists g, row, node. split; [done|]. split; [done|].
  assert (row ∈ normalise_table (raw_data inp)) as Hin.
  { apply last_Some_elem_of in Hrow. unfold rows_of_language in Hrow.
    by apply list_elem_of_filter in Hrow as [_ ?]. }
  assert (∀ column,
            title_case (dict_get_default column "" row) = "" ↔
            dict_get column row = None) as Hcell.
  { intros column. rewrite title_case_nil. unfold dict_get_default.
    destruct (dict_get column row) as [v|] eqn:Hget; [|done].
    pose proof (normalised_cell inp row column v Hin Hget). naive_solver. }
  assert (∀ column,
            (if decide (title_case (dict_get_default column "" row) = "")
             then None
             else Some (@VStr float (title_case (dict_get_default column "" row))))
            = (λ v, VStr (title_case v)) <$> dict_get column row) as Hopt.
  { intros column. case_decide as Hc.
    - apply Hcell in Hc. by rewrite Hc.
    - unfold dict_get_default in *.
      destruct (dict_get column row) eqn:?; [done|]. by destruct Hc. }
  destruct (language_row_fields g node row) as (Hid & _ & _ & Hname & Hsub & Hfam & _).
  cbv zeta in Hname, Hsub, Hfam.
  split; [done|]. rewrite Hname, Hsub, Hfam, !Hopt.
  split; [|done]. clear Hname Hsub Hfam Hopt. do 2 f_equal. case_decide as Hc.
  - apply Hcell in Hc. by rewrite Hc.
  - unfold dict_get_default in *.
    destruct (dict_get "Language" row) eqn:?; [done|]. by destruct Hc.
Qed.

End RunTables.


(** ** Identifiers are keys *)

Lemma chars_app (s t : string) :
  list_ascii_of_string (s +:+ t) = list_ascii_of_string s ++ list_ascii_of_string t.
Proof.
  induction s as [|c s IH]; [done|].
  change (c :: list_ascii_of_string (s +:+ t)
          = c :: (list_ascii_of_string s ++ list_ascii_of_string t)).
  by rewrite IH.
Qed.

Lemma chars_inj (s t : string) :
  list_ascii_of_string s = list_ascii_of_string t → s = t.
Proof.
  intros H. rewrite <-(string_of_list_ascii_of_string s),
    <-(string_of_list_ascii_of_string t). by rewrite H.
Qed.

Lemma pretty_N_char_digit (x : N) : is_digit (pretty_N_char x) = true.
Proof. unfold pretty_N_char. by repeat case_match. Qed.

Lemma pretty_N_go_digits (x : N) (s : string) :
  Forall (λ c, is_digit c = true) (list_ascii_of_string s) →
  Forall (λ c, is_digit c = true) (list_ascii_of_string (pretty_N_go x s)).
Proof.
  revert s. induction (N.lt_wf_0 x) as [x _ IH]. intros s Hs.
  destruct (decide (0 < x)%N) as [Hx|Hx].
  - rewrite pretty_N_go_step by done. apply IH.
    + by apply N.div_lt.
    + constructor; [apply pretty_N_char_digit|done].
  - assert (x = 0%N) as -> by lia. by rewrite pretty_N_go_0.
Qed.

Lemma str_of_nat_digits (n : nat) :
  Forall (λ c, is_digit c = true) (list_ascii_of_string (str_of_nat n)).
Proof.
  unfold str_of_nat, pretty, pretty_nat, pretty, pretty_N. case_decide.
  - by repeat constructor.
  - apply pretty_N_go_digits. constructor.
Qed.

Lemma digits_prefix_inj (a1 a2 x1 x2 : list ascii) (c1 c2 : ascii) :
  Forall (λ c, is_digit c = true) a1 → Forall (λ c, is_digit c = true) a2 →
  is_digit c1 = false → is_digit c2 = false →
  a1 ++ c1 :: x1 = a2 ++ c2 :: x2 → a1 = a2.
Proof.
  intros H1. revert a2. induction H1 as [|d1 a1 Hd1 _ IH]; intros a2 H2 Hc1 Hc2.
  - destruct H2 as [|d2 a2 Hd2 _]; [done|]. intros [= -> _]. congruence.
  - destruct H2 as [|d2 a2 Hd2 H2]; [intros [= -> _]; congruence|].
    intros [= -> Heq]. f_equal. by apply IH.
Qed.

(** An identifier made of a prefix, a separator that ends in a character
    that is no digit, and a number, determines the prefix and the number. *)
Lemma numbered_id_inj (g1 g2 sep : string) (c : ascii) (n1 n2 : nat) :
  is_digit c = false →
  g1 +:+ (sep +:+ String c "") +:+ str_of_nat n1
    = g2 +:+ (sep +:+ String c "") +:+ str_of_nat n2 →
  g1 = g2 ∧ n1 = n2.
Proof.
  intros Hc Heq. apply (f_equal list_ascii_of_string) in Heq.
  rewrite !chars_app in Heq. apply (f_equal reverse) in Heq.
  rewrite !reverse_app in Heq.
  change (list_ascii_of_string (String c "")) with [c] in Heq.
  rewrite reverse_singleton in Heq. rewrite <-!app_assoc in Heq.
  cbn [app] in Heq.
  pose proof (digits_prefix_inj _ _ _ _ c c
                (proj2 (Forall_reverse _ _) (str_of_nat_digits n1))
                (proj2 (Forall_reverse _ _) (str_of_nat_digits n2)) Hc Hc Heq) as Hd.
  rewrite Hd in Heq. apply app_inv_head in Heq. injection Heq as Heq.
  apply app_inv_head in Heq.
  apply (inj reverse), chars_inj in Heq. apply (inj reverse), chars_inj in Hd.
  split; [done|]. unfold str_of_nat in Hd. by apply (inj pretty) in Hd.
Qed.

Lemma count_take_lt {A} (P : A → Prop) `{!∀ x, Decision (P x)} (l : list A) i j x :
  i < j → l !! j = Some x → P x →
  length (filter P (take (S i) l)) < length (filter P (take (S j) l)).
Proof.
  intros Hij Hj Hx. rewrite (take_S_r l j x) by done.
  rewrite filter_app, length_app, filter_cons_True, filter_nil by done.
  cbn [length].
  assert (take (S i) l = take (S i) (take j l)) as ->.
  { rewrite take_take. f_equal. lia. }
  pose proof (length_filter P (take (S i) (take j l))).
  rewrite <-(take_drop (S i) (take j l)) at 2.
  rewrite filter_app, length_app. lia.
Qed.

Section Keys.
Context {float : Type} `{!EqDecision float} (float_str : float → string).
Implicit Types (inp : @Input float) (out : @Output float) (err : list string).

(** The identifier of the construction of row [i]: the language of the
    row and the number of rows of that language up to row [i]. *)
Lemma construction_id_of_run inp err out err' i c :
  cmd_makecldf float_str inp err = (Ok out, err') →
  constructions_csv out !! i = Some c →
  ∃ row g,
    normalise_table (raw_data inp) !! i = Some row ∧
    dict_get "Glottolog.Name" row = Some g ∧
    Construction.ID c =
      format_constr_id g
        (length (rows_of_language g (take (S i) (normalise_table (raw_data inp))))).
Proof.
  intros (lang_info & table & ids & st & _ & _ & _ & Hloop & ->)%cmd_makecldf_Ok.
  cbn [constructions_csv].
  apply loop_Ok in Hloop as (_ & _ & cs & vs & Hcs & _ & Hlen & Hrows & _).
  cbn [constructions ords] in Hcs, Hrows. rewrite app_nil_l in Hcs. rewrite Hcs.
  rewrite enumerate_snd in Hrows. rewrite length_enumerate in Hlen.
  intros Hc.
  destruct (normalise_table (raw_data inp) !! i) as [row|] eqn:Hrow.
  2:{ apply lookup_ge_None in Hrow. apply lookup_lt_Some in Hc. lia. }
  destruct (Hrows i i row) as (g & lang & name & cit & Hg & _ & _ & _ & Hc').
  { by rewrite enumerate_lookup, Hrow. }
  rewrite Hc in Hc'. injection Hc' as ->. by exists row, g.
Qed.

Lemma construction_ids_differ inp err out err' i j ci cj :
  cmd_makecldf float_str inp err = (Ok out, err') →
  constructions_csv out !! i = Some ci →
  constructions_csv out !! j = Some cj →
  Construction.ID ci = Construction.ID cj → i = j.
Proof.
  intros Hrun.
  assert (∀ i j ci cj, i < j →
            constructions_csv out !! i = Some ci →
            constructions_csv out !! j = Some cj →
            Construction.ID ci ≠ Construction.ID cj) as Hlt.
  { clear i j ci cj. intros i j ci cj Hij Hi Hj Heq.
    destruct (construction_id_of_run _ _ _ _ _ _ Hrun Hi)
      as (rowi & gi & Hrowi & Hgi & Hidi).
    destruct (construction_id_of_run _ _ _ _ _ _ Hrun Hj)
      as (rowj & gj & Hrowj & Hgj & Hidj).
    rewrite Hidi, Hidj in Heq. unfold format_constr_id in Heq.
    apply (numbered_id_inj gi gj "-a" "p") in Heq as [-> Hn]; [|done].
    pose proof (count_take_lt (λ row, dict_get "Glottolog.Name" row = Some gj)
                  (normalise_table (raw_data inp)) i j rowj Hij Hrowj Hgj) as Hcount.
    unfold rows_of_language in Hn. lia. }
  intros Hci Hcj Heq.
  destruct (Nat.lt_trichotomy i j) as [Hij|[->|Hij]]; [|done|].
  - by destruct (Hlt i j ci cj Hij Hci Hcj).
  - by destruct (Hlt j i cj ci Hij Hcj Hci).
Qed.

(** X17.  No two records of [constructions.csv] have the same identifier. *)
Theorem construction_ids_unique inp err out err' :
  cmd_makecldf float_str inp err = (Ok out, err') →
  NoDup (Construction.ID <$> constructions_csv out).
Proof.
  intros Hrun. apply NoDup_alt. intros i j x Hi Hj.
  rewrite list_lookup_fmap in Hi, Hj.
  destruct (constructions_csv out !! i) as [ci|] eqn:Hci; [|done].
  destruct (constructions_csv out !! j) as [cj|] eqn:Hcj; [|done].
  injection Hi as Hi. injection Hj as Hj.
  apply (construction_ids_differ inp err out err' i j ci cj); congruence.
Qed.

(** X18.  No two records of the code table have the same identifier. *)
Theorem code_ids_unique inp err out err' :
  cmd_makecldf float_str inp err = (Ok out, err') →
  NoDup (Code.ID <$> CodeTable out).
Proof.
  intros (lang_info & table & ids & st & _ & _ & _ & _ & ->)%cmd_makecldf_Ok.
  cbn [CodeTable]. set (data := normalise_table (raw_data inp)).
  rewrite make_codes_eq. unfold dict_values. rewrite <-list_fmap_compose.
  assert (NoDup (code_items (make_code_dict data)).*1) as Hnd.
  { rewrite <-make_codes_eq. apply dict_of_items_NoDup. }
  assert (NoDup (make_code_dict data).*1) as Hparams.
  { rewrite make_code_dict_eq. apply (bool_decide_unpack _). by vm_compute. }
  apply NoDup_fmap_2_strong; [|by apply NoDup_fmap_1 in Hnd].
  intros [[p name] c] [[p' name'] c'] Hin Hin' Heq. cbn [compose snd] in Heq.
  apply elem_of_code_items in Hin as (names & i & Hp & Hi & ->).
  apply elem_of_code_items in Hin' as (names' & i' & Hp' & Hi' & ->).
  cbn [fst snd] in *. unfold make_code in Heq. cbn [Code.ID] in Heq.
  apply (numbered_id_inj p p' "-" "c") in Heq as [-> Hn]; [|done].
  assert (i = i') as -> by lia.
  assert (names = names') as ->.
  { apply (dict_get_NoDup _ _ _ Hparams) in Hp, Hp'. congruence. }
  rewrite Hi in Hi'. by injection Hi' as ->.
Qed.
End Keys.


Lemma NoDup_omap_keyed {A B K} (f : A → option B) (ka : A → K) (kb : B → K)
    (l : list A) :
  (∀ a b, f a = Some b → kb b = ka a) →
  NoDup (ka <$> l) → NoDup (kb <$> omap f l).
Proof.
  intros Hf. induction l as [|a l IH]; [constructor|].
  rewrite fmap_cons. intros [Ha Hl]%NoDup_cons. cbn [omap list_omap].
  destruct (f a) as [b|] eqn:Hb; [|by apply IH].
  rewrite fmap_cons. apply NoDup_cons. split; [|by apply IH].
  intros (b' & Hkb & (a' & Ha' & Hb')%list_elem_of_omap)%list_elem_of_fmap.
  apply Ha. apply list_elem_of_fmap. exists a'. split; [|done].
  rewrite <-(Hf a b Hb), <-(Hf a' b' Hb'). done.
Qed.

Lemma NoDup_join_keyed {A K} (key : A → K) (ks : list K) (ls : list (list A)) :
  Forall2 (λ k l, NoDup l ∧ Forall (λ x, key x = k) l) ks ls →
  NoDup ks → NoDup (mjoin ls).
Proof.
  induction 1 as [|k l ks ls [Hl Hk] Hrest IH]; [constructor|].
  intros [Hk' Hks]%NoDup_cons.
  change (NoDup (l ++ mjoin ls)). apply NoDup_app. split; [done|]. split; [|by apply IH].
  intros x Hx (l' & Hxl' & [j Hj]%list_elem_of_lookup)%list_elem_of_join.
  destruct (Forall2_lookup_r _ _ _ _ _ Hrest Hj) as (k' & Hk'j & _ & Hl').
  rewrite Forall_forall in Hk, Hl'. apply Hk'.
  rewrite <-(Hk x Hx), (Hl' x Hxl'). by eapply list_elem_of_lookup_2.
Qed.

(** No parameter identifier is the end of another one after a hyphen, so the
    part of a value identifier after the construction identifier is read
    off in one way only. *)
Lemma param_suffix_inj (p1 p2 : string) (X1 X2 : list ascii) :
  p1 ∈ PARAMETER_COLUMNS.*2 → p2 ∈ PARAMETER_COLUMNS.*2 →
  reverse (list_ascii_of_string p1) ++ "-"%char :: X1
    = reverse (list_ascii_of_string p2) ++ "-"%char :: X2 →
  p1 = p2 ∧ X1 = X2.
Proof.
  unfold PARAMETER_COLUMNS. cbn [fmap list_fmap snd]. intros Hp1 Hp2.
  set_unfold in Hp1. set_unfold in Hp2.
  destruct Hp1 as [->|[->|[->|[->|[->|[->|[->|[]]]]]]]];
  destruct Hp2 as [->|[->|[->|[->|[->|[->|[->|[]]]]]]]];
    vm_compute; intros Heq; by simplify_eq.
Qed.

Lemma value_id_inj (cid1 cid2 p1 p2 : string) :
  p1 ∈ PARAMETER_COLUMNS.*2 → p2 ∈ PARAMETER_COLUMNS.*2 →
  cid1 +:+ "-" +:+ p1 = cid2 +:+ "-" +:+ p2 → cid1 = cid2 ∧ p1 = p2.
Proof.
  intros Hp1 Hp2 Heq. apply (f_equal list_ascii_of_string) in Heq.
  rewrite !chars_app in Heq. apply (f_equal reverse) in Heq.
  rewrite !reverse_app in Heq.
  change (reverse (list_ascii_of_string "-")) with ["-"%char] in Heq.
  rewrite <-!app_assoc in Heq. cbn [app] in Heq.
  apply param_suffix_inj in Heq as [-> Heq]; [|done..].
  by apply (inj reverse), chars_inj in Heq.
Qed.

Section ValueKeys.
Context {float : Type} `{!EqDecision float} (float_str : float → string).
Implicit Types (inp : @Input float) (out : @Output float) (err : list string)
  (codes : dict (string * string) Code.t).

Lemma row_values_keyed codes cid (row : Row) :
  NoDup (CValue.Parameter_ID <$> row_values codes cid row) ∧
  Forall (λ cv, CValue.Construction_ID cv = cid ∧
                CValue.Parameter_ID cv ∈ PARAMETER_COLUMNS.*2 ∧
                CValue.ID cv = cid +:+ "-" +:+ CValue.Parameter_ID cv)
         (row_values codes cid row).
Proof.
  unfold row_values. split.
  - apply (NoDup_omap_keyed _ snd).
    + intros [column param] cv. cbn [fst snd].
      destruct (dict_get column row) as [v|]; [|done].
      destruct (truthy v); [|done]. by intros [= <-].
    + apply (bool_decide_unpack _). by vm_compute.
  - apply Forall_forall. intros cv ([column param] & Hin & Hcv)%list_elem_of_omap.
    cbn [fst snd] in Hcv.
    destruct (dict_get column row) as [v|]; [|done].
    destruct (truthy v); [|done]. injection Hcv as <-.
    cbn [CValue.Construction_ID CValue.Parameter_ID CValue.ID].
    split; [done|]. split; [|done].
    apply list_elem_of_fmap. by exists (column, param).
Qed.

Lemma value_blocks_keyed codes (cs : list Construction.t) (data : list Row) :
  length cs = length data →
  Forall2 (λ k l, NoDup l ∧ Forall (λ cv, CValue.Construction_ID cv = k) l)
          (Construction.ID <$> cs)
          (zip_with (λ c row, row_values codes (Construction.ID c) row) cs data).
Proof.
  revert data. induction cs as [|c cs IH]; intros [|row data] Hlen;
    [by constructor|done|done|].
  rewrite fmap_cons. cbn [zip_with]. constructor.
  - destruct (row_values_keyed codes (Construction.ID c) row) as [Hnd Hall].
    split; [by apply NoDup_fmap_1 in Hnd|].
    eapply Forall_impl; [exact Hall|]. by intros cv (? & _).
  - apply IH. cbn [length] in Hlen. lia.
Qed.

(** X19.  No two records of [cvalues.csv] have the same identifier. *)
Theorem value_ids_unique inp err out err' :
  cmd_makecldf float_str inp err = (Ok out, err') →
  NoDup (CValue.ID <$> cvalues_csv out).
Proof.
  intros Hrun. pose proof Hrun as [Hlen Hvs]%cvalues_of_run.
  set (codes := make_codes (make_code_dict (normalise_table (raw_data inp)))) in *.
  assert (NoDup (Construction.ID <$> constructions_csv out)) as Hcs.
  { apply NoDup_alt. intros i j x Hi Hj. rewrite list_lookup_fmap in Hi, Hj.
    destruct (constructions_csv out !! i) as [ci|] eqn:Hci; [|done].
    destruct (constructions_csv out !! j) as [cj|] eqn:Hcj; [|done].
    injection Hi as Hi. injection Hj as Hj.
    apply (construction_ids_differ float_str inp err out err' i j ci cj); congruence. }
  assert (NoDup (cvalues_csv out)) as Hnd.
  { rewrite Hvs. eapply NoDup_join_keyed; [by apply value_blocks_keyed|done]. }
  apply NoDup_fmap_2_strong; [|done].
  intros cv1 cv2 Hcv1 Hcv2 Heq.
  assert (∀ cv, cv ∈ cvalues_csv out →
            CValue.Parameter_ID cv ∈ PARAMETER_COLUMNS.*2 ∧
            CValue.ID cv = CValue.Construction_ID cv +:+ "-" +:+ CValue.Parameter_ID cv)
    as Hshape.
  { intros cv Hcv. rewrite Hvs in Hcv.
    apply elem_of_join_zip_with in Hcv as (i & c & row & _ & _ & Hcv).
    destruct (row_values_keyed codes (Construction.ID c) row) as [_ Hall].
    rewrite Forall_forall in Hall. destruct (Hall cv Hcv) as (-> & ? & ?). done. }
  destruct (Hshape cv1 Hcv1) as [Hp1 Hid1], (Hshape cv2 Hcv2) as [Hp2 Hid2].
  rewrite Hid1, Hid2 in Heq. apply value_id_inj in Heq as [Hcid Hparam]; [|done..].
  clear Hshape Hid1 Hid2 Hp1 Hp2 Hnd.
  rewrite Hvs in Hcv1, Hcv2.
  apply elem_of_join_zip_with in Hcv1 as (i1 & c1 & row1 & Hc1 & Hrow1 & Hcv1).
  apply elem_of_join_zip_with in Hcv2 as (i2 & c2 & row2 & Hc2 & Hrow2 & Hcv2).
  destruct (row_values_keyed codes (Construction.ID c1) row1) as [Hnd1 Hall1].
  destruct (row_values_keyed codes (Construction.ID c2) row2) as [_ Hall2].
  rewrite Forall_forall in Hall1, Hall2.
  destruct (Hall1 cv1 Hcv1) as (Hk1 & _), (Hall2 cv2 Hcv2) as (Hk2 & _).
  assert (i1 = i2) as ->.
  { apply (construction_ids_differ float_str inp err out err' i1 i2 c1 c2);
      [done..|congruence]. }
  assert (c1 = c2) as -> by congruence. assert (row1 = row2) as -> by congruence.
  apply list_elem_of_lookup in Hcv1 as [j1 Hj1], Hcv2 as [j2 Hj2].
  assert (j1 = j2) as ->; [|congruence].
  eapply NoDup_lookup; [exact Hnd1|..]; rewrite list_lookup_fmap.
  - by rewrite Hj1.
  - rewrite Hj2. cbn. by rewrite Hparam.
Qed.

(** X20.  The code table lists the coded parameters in the order of
    [PARAMETER_COLUMNS], and the values of one parameter in increasing
    order; a code's parameter and name are those of its place. *)
Theorem code_table_order inp err out err' :
  cmd_makecldf float_str inp err = (Ok out, err') →
  (λ code, (Code.Parameter_ID code, Code.Name code)) <$> CodeTable out =
    cp ← filter (λ cp, cp.2 ≠ "ap-marker") PARAMETER_COLUMNS;
    pair cp.2 <$> sorted_set (observed cp.1 (normalise_table (raw_data inp))).
Proof.
  intros (lang_info & table & ids & st & _ & _ & _ & _ & ->)%cmd_makecldf_Ok.
  cbn [CodeTable]. set (data := normalise_table (raw_data inp)).
  rewrite make_codes_eq. unfold dict_values. rewrite <-list_fmap_compose.
  transitivity ((code_items (make_code_dict data)).*1).
  - apply list_fmap_ext. intros i [[p name] c] Hi. apply list_elem_of_lookup_2 in Hi.
    by apply elem_of_code_items in Hi as (names & j & _ & _ & ->).
  - rewrite code_items_keys, make_code_dict_eq.
    generalize (filter (λ cp : string * string, cp.2 ≠ "ap-marker") PARAMETER_COLUMNS).
    intros l. induction l as [|cp l IH]; [done|].
    rewrite fmap_cons. cbn [mbind list_bind]. by rewrite IH.
Qed.
End ValueKeys.


(** ** The further properties on the sample tables *)

Lemma title_case_witness :
  is_ascii "o'NEIL-smith 2nd" = true ∧
  title_case "o'NEIL-smith 2nd" = "O'Neil-Smith 2nd" ∧
  title_case "o'NEIL-smith 2nd" = title_chars false "o'NEIL-smith 2nd".
Proof.
  split; [vm_compute; reflexivity|]. split; [vm_compute; reflexivity|].
  apply (title_case_chars "o'NEIL-smith 2nd"). vm_compute. reflexivity.
Defined.

Lemma title_case_idemp_witness :
  String.length (title_case "first name") = 10 ∧
  title_case (title_case "first name") = title_case "first name".
Proof.
  destruct (title_case_idemp "first name") as (Hl & _ & Hi).
  { vm_compute. reflexivity. }
  split; [exact Hl|exact Hi].
Defined.

Lemma missing_language_cell_witness :
  cmd_makecldf pretty missing_language_input []
    = (Err (KeyError (VStr "Glottolog.Name")), []).
Proof.
  apply (missing_language_cell pretty missing_language_input []).
  unfold languages_named. apply (bool_decide_unpack _). vm_compute. exact I.
Defined.

Lemma unknown_citation_is_fatal_witness :
  cmd_makecldf pretty padded_citation_input [] = (Err (NameError "sys"), []).
Proof.
  apply (unknown_citation_is_fatal pretty padded_citation_input []).
  - unfold languages_named. apply (bool_decide_unpack _). vm_compute. exact I.
  - unfold languages_catalogued. apply (bool_decide_unpack _). vm_compute. exact I.
  - unfold citations_known. apply (bool_decide_unpack _). vm_compute. exact I.
Defined.

Lemma run_preconditions_witness :
  cmd_makecldf pretty sample_input [] = (Ok sample_output, []) ∧
  languages_named (normalise_table (raw_data sample_input)) ∧
  languages_catalogued (glottolog sample_input)
    (normalise_table (raw_data sample_input)) ∧
  citations_known (make_source_map (citations_to_bibtex sample_input))
    (normalise_table (raw_data sample_input)).
Proof.
  split; [exact sample_run|].
  exact (run_preconditions pretty sample_input [] sample_output [] sample_run).
Defined.

Lemma cvalues_reference_constructions_witness :
  cmd_makecldf pretty sample_input [] = (Ok sample_output, []) ∧
  ∃ cv, cvalues_csv sample_output !! 0 = Some cv ∧
    ∃ i row c column v,
      normalise_table (raw_data sample_input) !! i = Some row ∧
      constructions_csv sample_output !! i = Some c ∧
      (column, CValue.Parameter_ID cv) ∈ PARAMETER_COLUMNS ∧
      dict_get column row = Some v ∧
      CValue.Construction_ID cv = Construction.ID c ∧
      CValue.ID cv = Construction.ID c +:+ "-" +:+ CValue.Parameter_ID cv ∧
      CValue.Value cv = unify_na v.
Proof.
  split; [exact sample_run|].
  destruct (cvalues_csv sample_output !! 0) as [cv|] eqn:Hcv;
    [|vm_compute in Hcv; discriminate].
  exists cv. split; [reflexivity|].
  apply (cvalues_reference_constructions pretty sample_input [] sample_output [] cv
           sample_run).
  exact (list_elem_of_lookup_2 _ _ _ Hcv).
Defined.

Lemma cvalues_complete_witness :
  ∃ c cv,
    constructions_csv sample_output !! 0 = Some c ∧
    cv ∈ cvalues_csv sample_output ∧
    CValue.Construction_ID cv = Construction.ID c ∧
    CValue.Parameter_ID cv = "polysemy" ∧
    CValue.Value cv = unify_na "NI".
Proof.
  apply (cvalues_complete pretty sample_input [] sample_output [] 0
           [ ("Glottolog.Name", "lang1"); ("Language", "first name");
             ("Family", "fam-a"); ("AP marker", "-ka"); ("Polysemy", "NI");
             ("Source", "X" +:+ LF +:+ "Z") ]
           "Polysemy" "polysemy" "NI" sample_run).
  - vm_compute. reflexivity.
  - apply (bool_decide_unpack _). vm_compute. exact I.
  - vm_compute. reflexivity.
Defined.

Lemma construction_sources_witness :
  ∃ c, constructions_csv sample_output !! 0 = Some c ∧
       Construction.Source c = ["k1"; "k2"] ∧
       Forall2 (λ line key,
                  padded line = false ∧
                  dict_get line (make_source_map (citations_to_bibtex sample_input))
                    = Some key)
               ["X"; "Z"] (Construction.Source c).
Proof.
  destruct (constructions_csv sample_output !! 0) as [c|] eqn:Hc;
    [|vm_compute in Hc; discriminate].
  exists c. split; [reflexivity|]. split.
  { vm_compute in Hc. injection Hc as <-. reflexivity. }
  apply (construction_sources pretty sample_input [] sample_output [] 0
           [ ("Glottolog.Name", "lang1"); ("Language", "first name");
             ("Family", "fam-a"); ("AP marker", "-ka"); ("Polysemy", "NI");
             ("Source", "X" +:+ LF +:+ "Z") ] c sample_run).
  - vm_compute. reflexivity.
  - exact Hc.
Defined.

Lemma language_table_sorted_witness :
  cmd_makecldf pretty sample_input [] = (Ok sample_output, []) ∧
  ∃ glottocodes,
    chain_get "ID" <$> LanguageTable sample_output
      = (λ g, Some (VStr g)) <$> glottocodes ∧
    StronglySorted String.le glottocodes ∧
    NoDup glottocodes ∧
    ∀ g, g ∈ glottocodes ↔
         ∃ row, row ∈ normalise_table (raw_data sample_input) ∧
                dict_get "Glottolog.Name" row = Some g.
Proof.
  split; [exact sample_run|].
  exact (language_table_sorted pretty sample_input [] sample_output [] sample_run).
Defined.

Lemma language_name_fallback_witness :
  ∃ lang,
    LanguageTable sample_output !! 1 = Some lang ∧
    ∃ g row node,
      last (rows_of_language g (normalise_table (raw_data sample_input))) = Some row ∧
      last (filter (λ l, Languoid.id l = g) (glottolog sample_input)) = Some node ∧
      chain_get "ID" lang = Some (VStr g) ∧
      chain_get "Name" lang =
        Some (VStr (match dict_get "Language" row with
                    | Some v => title_case v
                    | None => Languoid.name node
                    end)) ∧
      chain_get "SubBranch" lang
        = (λ v, VStr (title_case v)) <$> dict_get "Sub-branch" row ∧
      chain_get "Family" lang = (λ v, VStr (title_case v)) <$> dict_get "Family" row.
Proof.
  destruct (LanguageTable sample_output !! 1) as [lang|] eqn:Hlang;
    [|vm_compute in Hlang; discriminate].
  exists lang. split; [reflexivity|].
  apply (language_name_fallback pretty sample_input [] sample_output [] lang sample_run).
  exact (list_elem_of_lookup_2 _ _ _ Hlang).
Defined.

Lemma construction_ids_unique_witness :
  cmd_makecldf pretty sample_input [] = (Ok sample_output, []) ∧
  NoDup (Construction.ID <$> constructions_csv sample_output).
Proof.
  split; [exact sample_run|].
  exact (construction_ids_unique pretty sample_input [] sample_output [] sample_run).
Defined.

Lemma code_ids_unique_witness :
  cmd_makecldf pretty sample_input [] = (Ok sample_output, []) ∧
  NoDup (Code.ID <$> CodeTable sample_output).
Proof.
  split; [exact sample_run|].
  exact (code_ids_unique pretty sample_input [] sample_output [] sample_run).
Defined.

Lemma value_ids_unique_witness :
  cmd_makecldf pretty sample_input [] = (Ok sample_output, []) ∧
  NoDup (CValue.ID <$> cvalues_csv sample_output).
Proof.
  split; [exact sample_run|].
  exact (value_ids_unique pretty sample_input [] sample_output [] sample_run).
Defined.

Lemma code_table_order_witness :
  (λ code, (Code.Parameter_ID code, Code.Name code)) <$> CodeTable sample_output
    = [ ("functions", "yes"); ("polysemy", "n/a"); ("polysemy", "no");
        ("polysemy", "yes") ].
Proof.
  rewrite (code_table_order pretty sample_input [] sample_output [] sample_run).
  vm_compute. reflexivity.
Defined.
